(** * Verification of the orchestration core of poke-tools

    Shallow embeddings of:
    - [BitwardenCli.serialize]/[exec] (the promise-chained command queue),
    - [SubprocessManager] (start / exit handler / restart timer / stop),
    - [TelegramMessageState] and [TelegramPollingModule.processDialog],
    - [MoltbookPollingHandler.poll] and [trimSeenIds],
    - [BitwardenSessionManager] (initialize / getSession / shutdown),
    - [PollingManager] (register / startPoller / stopPoller / runPoller). *)

From Stdlib Require Import ZArith Lia Sorting.Sorted Permutation DecimalString DecimalZ Ascii.
From stdpp Require Import base list gmap strings.

(* ================================================================== *)
(** ** BitwardenCli: the serialized command queue *)
(* ================================================================== *)

Module CommandQueue.

(** How a promise settled. *)
Inductive outcome := Fulfilled | Rejected.

(** A [fn] handed to [serialize]: not yet called, called and its
    promise pending (the [bw] child process is in flight), or settled. *)
Inductive job := Pending | Running | Settled (o : outcome).

(** A promise: [None] while pending. *)
Definition promise := option outcome.

(** [result] of a job, i.e. [this.queue.then(fn, fn)]. *)
Definition result_of (j : job) : promise :=
  match j with Settled o => Some o | _ => None end.

(** [result.catch(() => {})]: settles, always fulfilled, once
    [result] settles. *)
Definition catch_noop (p : promise) : promise :=
  match p with Some _ => Some Fulfilled | None => None end.

(** The value of [this.queue] when job [k] was submitted:
    [Promise.resolve()] for the first job, otherwise the previous job's
    [result.catch(() => {})]. *)
Definition queue_before (q : list job) (k : nat) : promise :=
  match k with
  | 0 => Some Fulfilled
  | S k' => match q !! k' with
            | Some j => catch_noop (result_of j)
            | None => None
            end
  end.

(** [p.then(fn, fn)] calls [fn] on either settlement of [p]. *)
Definition then_both_fires (p : promise) : bool :=
  match p with Some _ => true | None => false end.

(** Events of the event loop: a call to [exec] (which synchronously
    calls [serialize]), the reaction running job [k]'s [fn], and job
    [k]'s promise settling. *)
Inductive event := Submit | Begin (k : nat) | Finish (k : nat) (o : outcome).

Definition step (q : list job) (e : event) : option (list job) :=
  match e with
  | Submit => Some (q ++ [Pending])
  | Begin k =>
      match q !! k with
      | Some Pending =>
          if then_both_fires (queue_before q k)
          then Some (<[k := Running]> q) else None
      | _ => None
      end
  | Finish k o =>
      match q !! k with
      | Some Running => Some (<[k := Settled o]> q)
      | _ => None
      end
  end.

Fixpoint run (q : list job) (es : list event) : option (list job) :=
  match es with
  | [] => Some q
  | e :: es' => match step q e with
                | Some q' => run q' es'
                | None => None
                end
  end.

(** The jobs whose [fn] has been called, in the order of the calls. *)
Fixpoint begins (es : list event) : list nat :=
  match es with
  | [] => []
  | Begin k :: es' => k :: begins es'
  | _ :: es' => begins es'
  end.

Definition is_running (j : job) : bool :=
  match j with Running => true | _ => false end.

(** The queue shape: a settled prefix, at most one running job, then
    jobs whose [fn] has not been called yet. *)
Definition shaped (q : list job) (c : nat) : Prop :=
  ∃ os r n, q = (Settled <$> os) ++ r ++ replicate n Pending ∧
            (r = [] ∨ r = [Running]) ∧ c = length os + length r.

End CommandQueue.

(* ================================================================== *)
(** ** SubprocessManager: crash handling and restart *)
(* ================================================================== *)

Module Supervisor.

Definition maxRestarts : nat := 5.
Definition restartDelay : Z := 1000.

(** The fields of [SubprocessManager] the lifecycle depends on;
    [process] is [this.process !== null]; [timers] are the pending
    [setTimeout] restart callbacks, by delay, in scheduling order. *)
Record state := mkState {
  process : bool;
  restartAttempts : nat;
  shuttingDown : bool;
  timers : list Z
}.

Definition init : state := mkState false 0 false [].

(** Observable effects: a child spawned, the ['exit'] event re-emitted,
    a restart scheduled (attempt, delay), ['maxRestartsReached']
    emitted, a restart attempt whose [start()] rejected (logged), and
    [SIGTERM] sent by [stop()]. *)
Inductive signal :=
| Spawned
| ExitEmitted
| RestartScheduled (attempt : nat) (delay : Z)
| MaxRestartsReached
| RestartFailed
| SigTerm.

(** [start()]: rejects with 'Process already running' if a child exists;
    otherwise clears [shuttingDown] and spawns. *)
Definition start (s : state) : option state :=
  if process s then None
  else Some (mkState true (restartAttempts s) false (timers s)).

(** The child's ['exit'] listener. *)
Definition on_exit (s : state) : state * list signal :=
  let att := restartAttempts s in
  if negb (shuttingDown s) && (att <? maxRestarts) then
    let att' := S att in
    let delay := (restartDelay * Z.of_nat att')%Z in
    (mkState false att' (shuttingDown s) (timers s ++ [delay]),
     [ExitEmitted; RestartScheduled att' delay])
  else if maxRestarts <=? att then
    (mkState false att (shuttingDown s) (timers s), [ExitEmitted; MaxRestartsReached])
  else
    (mkState false att (shuttingDown s) (timers s), [ExitEmitted]).

(** The child's ['error'] listener (spawn failure): no restart. *)
Definition on_error (s : state) : state :=
  mkState false (restartAttempts s) (shuttingDown s) (timers s).

(** The earliest pending restart callback fires. *)
Definition on_timer (s : state) : state * list signal :=
  match timers s with
  | [] => (s, [])
  | _ :: ts =>
      let s1 := mkState (process s) (restartAttempts s) (shuttingDown s) ts in
      if negb (shuttingDown s1) then
        match start s1 with
        | Some s2 => (s2, [Spawned])
        | None => (s1, [RestartFailed])
        end
      else (s1, [])
  end.

(** [stop()]: returns at once when there is no child; otherwise sets
    [shuttingDown] and sends [SIGTERM] (the child's exit, or the
    [SIGKILL] fallback's, arrives later as an exit event). *)
Definition stop (s : state) : state * list signal :=
  if negb (process s) then (s, [])
  else (mkState (process s) (restartAttempts s) true (timers s), [SigTerm]).

Inductive event := EvStart | EvExit | EvError | EvTimer | EvStop.

Definition step (s : state) (e : event) : state * list signal :=
  match e with
  | EvStart => match start s with Some s' => (s', [Spawned]) | None => (s, []) end
  | EvExit => if process s then on_exit s else (s, [])
  | EvError => if process s then (on_error s, []) else (s, [])
  | EvTimer => on_timer s
  | EvStop => stop s
  end.

Fixpoint run (s : state) (es : list event) : state * list signal :=
  match es with
  | [] => (s, [])
  | e :: es' =>
      let '(s1, o1) := step s e in
      let '(s2, o2) := run s1 es' in
      (s2, o1 ++ o2)
  end.

(** A child that exits as soon as it is started, [k] times over, with
    every pending restart timer allowed to fire; [stop()] never called. *)
Definition crash_loop (k : nat) : list event :=
  EvStart :: mjoin (replicate k [EvExit; EvTimer]).

(** The signals of [crash_loop]: five restarts, then the terminal signal. *)
Definition crash_signals : list signal :=
  [Spawned; ExitEmitted; RestartScheduled 1 1000;
   Spawned; ExitEmitted; RestartScheduled 2 2000;
   Spawned; ExitEmitted; RestartScheduled 3 3000;
   Spawned; ExitEmitted; RestartScheduled 4 4000;
   Spawned; ExitEmitted; RestartScheduled 5 5000;
   Spawned; ExitEmitted; MaxRestartsReached].

End Supervisor.

(* ================================================================== *)
(** ** Telegram: last-seen cursor with text fingerprint *)
(* ================================================================== *)

Module Telegram.

Local Open Scope Z_scope.

(** A message; [text] is its UTF-16 code units ([charCodeAt]). *)
Record TelegramMessage := mkMsg {
  id : Z;
  date : string;
  text : list Z
}.

(** [MessageState]; [textHash] keeps the 32-bit hash whose
    [toString(16)] the source stores (that map is injective, so string
    and number comparisons agree). *)
Record MessageState := mkMessageState {
  st_id : Z;
  st_date : string;
  textHash : Z
}.

(** ECMAScript [ToInt32]. *)
Definition toInt32 (z : Z) : Z :=
  let m := z mod 2 ^ 32 in
  if 2 ^ 31 <=? m then m - 2 ^ 32 else m.

(** [hashText]: [hash = (hash << 5) - hash + char; hash = hash & hash]. *)
Definition hashText (t : list Z) : Z :=
  fold_left
    (λ hash ch,
       let h := toInt32 (toInt32 hash * 32) - hash + ch in
       Z.land (toInt32 h) (toInt32 h))
    t 0.

(** [TelegramMessageState.state : Map<number, MessageState>]. *)
Abbreviation state := (gmap Z MessageState).

Definition isNewMessage (st : state) (dialogId : Z) (message : TelegramMessage) : bool :=
  match st !! dialogId with
  | None => true
  | Some existing =>
      if st_id existing <? id message then true
      else if id message =? st_id existing then
        negb (hashText (text message) =? textHash existing)
      else false
  end.

Definition markSeen (st : state) (dialogId : Z) (message : TelegramMessage) : state :=
  <[dialogId := mkMessageState (id message) (date message) (hashText (text message))]> st.

Definition getLastSeenId (st : state) (dialogId : Z) : option Z :=
  st_id <$> st !! dialogId.

(** [messages.sort((a, b) => a.id - b.id)]: a stable sort by id,
    written as insertion sort (each element goes after the equal ones
    already placed). *)
Fixpoint insert_by_id (m : TelegramMessage) (l : list TelegramMessage) : list TelegramMessage :=
  match l with
  | [] => [m]
  | y :: l' => if id m <? id y then m :: l else y :: insert_by_id m l'
  end.

Definition sort_by_id (l : list TelegramMessage) : list TelegramMessage :=
  fold_left (λ acc m, insert_by_id m acc) l [].

(** The [for] loop of [processDialog]. [send m] tells whether
    [pokeClient.sendInboundMessage] resolves; a rejection leaves the
    loop (the [catch] of [processDialog] logs it). Returns the messages
    handed to [sendInboundMessage], in order, and the new state. *)
Fixpoint process_loop (send : TelegramMessage → bool) (dialogId : Z)
    (lastSeenId : option Z) (st : state) (ms : list TelegramMessage)
    : list TelegramMessage * state :=
  match ms with
  | [] => ([], st)
  | message :: ms' =>
      if (match lastSeenId with Some l => id message <=? l | None => false end)
      then process_loop send dialogId lastSeenId st ms'
      else if isNewMessage st dialogId message then
        if send message then
          let '(out, st') := process_loop send dialogId lastSeenId
                               (markSeen st dialogId message) ms' in
          (message :: out, st')
        else ([message], st)
      else process_loop send dialogId lastSeenId st ms'
  end.

(** [processDialog]: [fetched] is the result of the [messagesList]
    call ([None] when it throws, which is caught and logged). *)
Definition processDialog (send : TelegramMessage → bool) (dialogId : Z)
    (fetched : option (list TelegramMessage)) (st : state)
    : list TelegramMessage * state :=
  let lastSeenId := getLastSeenId st dialogId in
  match fetched with
  | None => ([], st)
  | Some [] => ([], st)
  | Some messages => process_loop send dialogId lastSeenId st (sort_by_id messages)
  end.

(** The new-item test as the spec states it, against a stored cursor
    [(last_id, fingerprint)]. *)
Definition spec_is_new (last_id fingerprint : Z) (m : TelegramMessage) : bool :=
  (last_id <? id m) || ((id m =? last_id) && negb (hashText (text m) =? fingerprint)).

(** Message order by id. *)
Definition id_le (a b : TelegramMessage) : Prop := id a ≤ id b.
Definition id_lt (a b : TelegramMessage) : Prop := id a < id b.

End Telegram.

(* ================================================================== *)
(** ** Moltbook: the ID-set dedup of [MoltbookPollingHandler] *)
(* ================================================================== *)

Module Moltbook.

Definition MAX_SEEN_IDS : nat := 1000.
Definition TRIM_TO_IDS : nat := 500.

(** The fields of [MoltbookPost] the handler and the claims use;
    [created_at] (an ISO-8601 string in the API) is its instant. *)
Record MoltbookPost := mkPost {
  id : string;
  created_at : Z
}.

(** [seenPostIds : Set<string>] as its insertion-ordered element list. *)
Record handler := mkHandler {
  seenPostIds : list string;
  isFirstPoll : bool
}.

Definition init : handler := mkHandler [] true.

Definition set_has (s : list string) (x : string) : bool := bool_decide (x ∈ s).

(** [Set.prototype.add]: a present element keeps its position. *)
Definition set_add (s : list string) (x : string) : list string :=
  if set_has s x then s else s ++ [x].

(** [trimSeenIds]: [new Set(Array.from(seen).slice(-TRIM_TO_IDS))]. *)
Definition trimSeenIds (s : list string) : list string :=
  if MAX_SEEN_IDS <? length s then drop (length s - TRIM_TO_IDS) s else s.

(** [posts.filter((post) => !this.seenPostIds.has(post.id)).reverse()]. *)
Definition newPosts (seen : list string) (posts : list MoltbookPost) : list MoltbookPost :=
  rev (List.filter (λ post, negb (set_has seen (id post))) posts).

(** The forwarding loop: every new post is handed to
    [sendInboundMessage]; [send post] tells whether it resolved, and
    only then is the id added. Returns the posts handed over, in order,
    and the seen set. *)
Fixpoint forward_loop (send : MoltbookPost → bool) (seen : list string)
    (ps : list MoltbookPost) : list MoltbookPost * list string :=
  match ps with
  | [] => ([], seen)
  | post :: ps' =>
      let seen1 := if send post then set_add seen (id post) else seen in
      let '(out, seen2) := forward_loop send seen1 ps' in
      (post :: out, seen2)
  end.

(** [poll()]: [fetched] is the result of [getFeed] ([None] when it
    rejects; [poll] then rethrows with the handler unchanged). *)
Definition poll (send : MoltbookPost → bool) (fetched : option (list MoltbookPost))
    (h : handler) : list MoltbookPost * handler :=
  match fetched with
  | None => ([], h)
  | Some posts =>
      if isFirstPoll h then
        ([], mkHandler (fold_left set_add (id <$> posts) (seenPostIds h)) false)
      else
        let '(out, seen') := forward_loop send (seenPostIds h) (newPosts (seenPostIds h) posts) in
        (out, mkHandler (trimSeenIds seen') false)
  end.

End Moltbook.

(* ================================================================== *)
(** ** BitwardenSessionManager *)
(* ================================================================== *)

Module Session.

Inductive SessionState := logged_out | locked | unlocked.

Definition SessionState_eqb (a b : SessionState) : bool :=
  match a, b with
  | logged_out, logged_out | locked, locked | unlocked, unlocked => true
  | _, _ => false
  end.

(** [session], [syncTimer !== null] and [sessionState]. *)
Record manager := mkManager {
  session : option string;
  syncTimer : bool;
  sessionState : SessionState
}.

Definition init : manager := mkManager None false logged_out.

(** How the [bw] calls of one operation turn out: [unlock_stdout] is the
    capture of the [BW_SESSION=...] assignment the unlock
    output is matched against ([None]
    when the command fails or nothing matches). *)
Record cli := mkCli {
  login_ok : bool;
  unlock_stdout : option string;
  sync_ok : bool;
  lock_ok : bool;
  logout_ok : bool
}.

(** JavaScript truthiness of [this.session]. *)
Definition truthy (s : option string) : bool :=
  match s with Some t => negb (String.eqb t "") | None => false end.

(** [BitwardenCli.unlock]: throws unless the capture is non-empty. *)
Definition cli_unlock (c : cli) : option string :=
  match unlock_stdout c with
  | Some t => if String.eqb t "" then None else Some t
  | None => None
  end.

(** [initialize()], cut at its [await]s: each segment returns the
    state when the next [await] resumes, or [None] when the awaited
    call rejects (the state is then the one before the segment). *)
Definition init_login (c : cli) (m : manager) : option manager :=
  if login_ok c then Some (mkManager (session m) (syncTimer m) locked) else None.

Definition init_unlock (c : cli) (m : manager) : option manager :=
  match cli_unlock c with
  | Some t => Some (mkManager (Some t) (syncTimer m) unlocked)
  | None => None
  end.

Definition init_sync (c : cli) (m : manager) : option manager :=
  if sync_ok c then Some (mkManager (session m) true (sessionState m)) else None.

(** The whole call: final state and whether it resolved. *)
Definition initialize (c : cli) (m : manager) : manager * bool :=
  match init_login c m with
  | None => (m, false)
  | Some m1 =>
      match init_unlock c m1 with
      | None => (m1, false)
      | Some m2 =>
          match init_sync c m2 with
          | None => (m2, false)
          | Some m3 => (m3, true)
          end
      end
  end.

(** [getSession()]: [None] is the thrown 'Bitwarden vault is not
    unlocked'. *)
Definition getSession (m : manager) : option string :=
  if negb (truthy (session m)) || negb (SessionState_eqb (sessionState m) unlocked)
  then None else session m.

(** [shutdown()]: never throws. *)
Definition shutdown (c : cli) (m : manager) : manager :=
  let m1 := mkManager (session m) false (sessionState m) in
  let m2 :=
    if truthy (session m1) && SessionState_eqb (sessionState m1) unlocked then
      if lock_ok c then mkManager (session m1) (syncTimer m1) locked else m1
    else m1 in
  let m3 :=
    if negb (SessionState_eqb (sessionState m2) logged_out) then
      if logout_ok c then mkManager (session m2) (syncTimer m2) logged_out else m2
    else m2 in
  mkManager None (syncTimer m3) (sessionState m3).

Inductive op := OpInitialize (c : cli) | OpGetSession | OpShutdown (c : cli).

(** The state after an operation returns or throws. *)
Definition apply_op (m : manager) (o : op) : manager :=
  match o with
  | OpInitialize c => fst (initialize c m)
  | OpGetSession => m
  | OpShutdown c => shutdown c m
  end.

Definition run (m : manager) (ops : list op) : manager := fold_left apply_op ops m.

(** Call sequences in which [initialize()] is only called while no
    token is held (the module calls it once, from [start()], and
    [shutdown()] from [stop()]). *)
Fixpoint init_when_no_token (m : manager) (ops : list op) : Prop :=
  match ops with
  | [] => True
  | o :: ops' =>
      (match o with OpInitialize _ => session m = None | _ => True end) ∧
      init_when_no_token (apply_op m o) ops'
  end.

(** A held token is a non-empty string and comes with state
    [unlocked]. *)
Definition token_inv (m : manager) : Prop :=
  ∀ t, session m = Some t → sessionState m = unlocked ∧ t ≠ "".

End Session.

(* ================================================================== *)
(** ** PollingManager *)
(* ================================================================== *)

Module Polling.

(** [PollerConfig]; [hasOnError] tells whether [onError] is given (the
    handler itself is the environment: its outcomes arrive as events). *)
Record PollerConfig := mkPollerConfig {
  name : string;
  interval : Z;
  immediate : bool;
  hasOnError : bool
}.

(** [PollerState]; [timer] is the [setInterval] handle, by id;
    [lastRun] is the clock reading of [new Date()]. *)
Record PollerState := mkPollerState {
  config : PollerConfig;
  timer : option nat;
  running : bool;
  lastRun : option Z;
  lastError : option string;
  runCount : nat
}.

(** The manager with the event loop's view of it: [intervals] are the
    active [setInterval] timers (id to the poller whose [runPoller]
    they call), [inflight] the handler invocations not yet settled. *)
Record manager := mkManager {
  pollers : gmap string PollerState;
  intervals : gmap nat string;
  next_timer : nat;
  inflight : list string;
  now : Z
}.

Definition empty : manager := mkManager ∅ ∅ 0 [] 0.

(** What a handler's promise rejected with. *)
Inductive thrown := ErrorObj (message : string) | NonError.

Definition errorMessage (e : thrown) : string :=
  match e with ErrorObj msg => msg | NonError => "Unknown error" end.

Inductive handler_result := HOk | HThrow (e : thrown).

Inductive effect :=
| HandlerCalled (n : string)
| OnErrorCalled (n : string) (msg : string)
| TimerCreated (n : string) (t : nat)
| TimerCleared (t : nat).

Definition set_pollers (m : manager) (ps : gmap string PollerState) : manager :=
  mkManager ps (intervals m) (next_timer m) (inflight m) (now m).

(** [register]: [None] is the thrown 'already registered'. *)
Definition register (cfg : PollerConfig) (m : manager) : option manager :=
  if bool_decide (is_Some (pollers m !! name cfg)) then None
  else Some (set_pollers m (<[name cfg := mkPollerState cfg None false None None 0]> (pollers m))).

(** [runPoller] up to its [await]: the handler is called. *)
Definition runPoller_call (n : string) (m : manager) : option (manager * list effect) :=
  match pollers m !! n with
  | None => None
  | Some _ =>
      Some (mkManager (pollers m) (intervals m) (next_timer m) (inflight m ++ [n]) (now m),
            [HandlerCalled n])
  end.

Definition startPoller (n : string) (m : manager) : option (manager * list effect) :=
  match pollers m !! n with
  | None => None
  | Some st =>
      if running st then Some (m, [])
      else
        let st1 := mkPollerState (config st) (timer st) true (lastRun st) (lastError st) (runCount st) in
        let m1 := set_pollers m (<[n := st1]> (pollers m)) in
        let '(m2, eff) :=
          if immediate (config st) then
            (mkManager (pollers m1) (intervals m1) (next_timer m1) (inflight m1 ++ [n]) (now m1),
             [HandlerCalled n])
          else (m1, []) in
        let t := next_timer m2 in
        let st2 := mkPollerState (config st1) (Some t) true (lastRun st1) (lastError st1) (runCount st1) in
        Some (mkManager (<[n := st2]> (pollers m2)) (<[t := n]> (intervals m2)) (S t)
                (inflight m2) (now m2),
              eff ++ [TimerCreated n t])
  end.

Definition stopPoller (n : string) (m : manager) : option (manager * list effect) :=
  match pollers m !! n with
  | None => None
  | Some st =>
      let '(ivs, eff) :=
        match timer st with
        | Some t => (delete t (intervals m), [TimerCleared t])
        | None => (intervals m, [])
        end in
      let st' := mkPollerState (config st) None false (lastRun st) (lastError st) (runCount st) in
      Some (mkManager (<[n := st']> (pollers m)) ivs (next_timer m) (inflight m) (now m), eff)
  end.

(** An active interval timer fires and calls [runPoller]. *)
Definition tick (t : nat) (m : manager) : option (manager * list effect) :=
  match intervals m !! t with
  | Some n => runPoller_call n m
  | None => None
  end.

Fixpoint remove_first (x : string) (l : list string) : option (list string) :=
  match l with
  | [] => None
  | y :: l' => if String.eqb x y then Some l'
               else (λ r, y :: r) <$> remove_first x l'
  end.

(** [runPoller] after its [await]: the handler's promise settled. *)
Definition settle (n : string) (res : handler_result) (m : manager)
    : option (manager * list effect) :=
  match remove_first n (inflight m), pollers m !! n with
  | Some fl, Some st =>
      let '(st', eff) :=
        match res with
        | HOk =>
            (mkPollerState (config st) (timer st) (running st) (Some (now m)) None
                           (S (runCount st)), [])
        | HThrow e =>
            let msg := errorMessage e in
            (mkPollerState (config st) (timer st) (running st) (lastRun st) (Some msg)
                           (runCount st),
             if hasOnError (config st) then [OnErrorCalled n msg] else [])
        end in
      Some (mkManager (<[n := st']> (pollers m)) (intervals m) (next_timer m) fl (now m), eff)
  | _, _ => None
  end.

Inductive event :=
| EvRegister (cfg : PollerConfig)
| EvStart (n : string)
| EvStop (n : string)
| EvTrigger (n : string)
| EvTick (t : nat)
| EvSettle (n : string) (res : handler_result)
| EvClock (z : Z).

Definition step (m : manager) (e : event) : option (manager * list effect) :=
  match e with
  | EvRegister cfg => (λ m', (m', [])) <$> register cfg m
  | EvStart n => startPoller n m
  | EvStop n => stopPoller n m
  | EvTrigger n => runPoller_call n m
  | EvTick t => tick t m
  | EvSettle n res => settle n res m
  | EvClock z => Some (mkManager (pollers m) (intervals m) (next_timer m) (inflight m) z, [])
  end.

(** A call that throws (or an event that cannot happen) leaves the
    manager as it was. *)
Definition step_total (m : manager) (e : event) : manager :=
  match step m e with Some (m', _) => m' | None => m end.

Definition run (m : manager) (es : list event) : manager := fold_left step_total es m.

(** The counters reported by [getStatus] for one poller. *)
Definition stats (q : string) (m : manager) : option (option Z * option string * nat) :=
  (λ st, (lastRun st, lastError st, runCount st)) <$> pollers m !! q.

(** Pollers and active interval timers agree: a poller is running
    exactly when it holds a timer, the timer it holds is active and
    calls it, every active timer is the one held by its poller, and
    timer ids not yet handed out are not active. *)
Definition timers_consistent (m : manager) : Prop :=
  (∀ p st, pollers m !! p = Some st →
     (running st = true ↔ is_Some (timer st)) ∧
     (∀ t, timer st = Some t → intervals m !! t = Some p)) ∧
  (∀ t p, intervals m !! t = Some p →
     ∃ st, pollers m !! p = Some st ∧ timer st = Some t) ∧
  (∀ t, next_timer m ≤ t → intervals m !! t = None).

End Polling.

(* ================================================================== *)
(** ** TelegramMessageState: export / import *)
(* ================================================================== *)

Module TelegramPersist.
Import Telegram.

(** [String(n)] for an integer-valued number: canonical decimal. *)
Definition number_to_string (z : Z) : string := NilZero.string_of_int (Z.to_int z).

(** [Number(k)] on a key that is a plain decimal integer with an
    optional leading [-]; [None] for every other key (spaced, signed
    with [+], hexadecimal, fractional or empty keys, which the model's
    integer dialog ids do not represent). *)
Definition string_to_number (k : string) : option Z :=
  Z.of_int <$> NilZero.int_of_string k.

(** [export()]: the entries of [Object.fromEntries(this.state)]. *)
Definition export_state (st : state) : list (string * MessageState) :=
  (λ kv, (number_to_string kv.1, kv.2)) <$> map_to_list st.

(** [import(data)]: [new Map(Object.entries(data).map(([k, v]) =>
    [Number(k), v]))]; a later entry for the same key wins. *)
Definition import_state (data : list (string * MessageState)) : option state :=
  (λ kvs : list (Z * MessageState), list_to_map (rev kvs)) <$>
    mapM (λ kv : string * MessageState, (λ z, (z, kv.2)) <$> string_to_number kv.1) data.

End TelegramPersist.

(* ================================================================== *)
(** ** TelegramPollingModule.pollForMessages *)
(* ================================================================== *)

Module TelegramPolling.
Import Telegram.

Inductive DialogType := DUser | DGroup | DChannel | DBot.

Definition DialogType_eqb (a b : DialogType) : bool :=
  match a, b with
  | DUser, DUser | DGroup, DGroup | DChannel, DChannel | DBot, DBot => true
  | _, _ => false
  end.

Record TelegramDialog := mkDialog {
  dialog_id : Z;
  dialog_type : DialogType
}.

Definition ALLOWED_DIALOG_TYPES : list DialogType := [DUser; DGroup].

Definition allowed (d : TelegramDialog) : bool :=
  existsb (DialogType_eqb (dialog_type d)) ALLOWED_DIALOG_TYPES.

(** [pollForMessages] once [groupsList] resolved with [groups] ([None]
    for a null result); [fetch id] is the [messagesList] result of
    dialog [id]. The dialogs are processed one after the other, each
    [processDialog] catching its own errors. Returns the forwarded
    messages with their dialog id, and the new state. *)
Definition poll_step (send : Z → TelegramMessage → bool)
    (fetch : Z → option (list TelegramMessage))
    (acc : list (Z * TelegramMessage) * state) (dialog : TelegramDialog)
    : list (Z * TelegramMessage) * state :=
  let '(out, st1) := acc in
  let '(o, st2) := processDialog (send (dialog_id dialog)) (dialog_id dialog)
                     (fetch (dialog_id dialog)) st1 in
  (out ++ ((λ m, (dialog_id dialog, m)) <$> o), st2).

Definition pollForMessages (send : Z → TelegramMessage → bool)
    (groups : option (list TelegramDialog))
    (fetch : Z → option (list TelegramMessage)) (st : state)
    : list (Z * TelegramMessage) * state :=
  let filteredDialogs := List.filter allowed (default [] groups) in
  fold_left (poll_step send fetch) filteredDialogs ([], st).

End TelegramPolling.

(* ================================================================== *)
(** ** TelegramMessageState.hashText as a polynomial *)
(* ================================================================== *)

Module TelegramHash.

(** The unbounded value that [hashText] computes modulo 2^32:
    [hash = 31 * hash + char] over the code units. *)
Definition hash_poly (t : list Z) (h : Z) : Z :=
  fold_left (λ h ch, 31 * h + ch)%Z t h.

End TelegramHash.

(* ================================================================== *)
(** ** SubprocessManager: the restart log *)
(* ================================================================== *)

Module SupervisorLog.
Import Supervisor.

(** The ('Scheduling subprocess restart') entries of a signal trace:
    attempt number and delay. *)
Fixpoint scheduled (o : list signal) : list (nat * Z) :=
  match o with
  | [] => []
  | RestartScheduled n dl :: o' => (n, dl) :: scheduled o'
  | _ :: o' => scheduled o'
  end.

End SupervisorLog.

(* ================================================================== *)
(** ** Moltbook MCP tools *)
(* ================================================================== *)

Module MoltbookTools.

(** An entry of [MOLTBOOK_TOOLS]: the name, the keys of
    [inputSchema.properties] and [inputSchema.required]. *)
Record McpTool := mkMcpTool {
  tool_name : string;
  properties : list string;
  required : list string
}.

Definition MOLTBOOK_TOOLS : list McpTool := [
  mkMcpTool "moltbook_get_feed" ["sort"; "limit"] [];
  mkMcpTool "moltbook_get_posts" ["submolt"; "sort"; "limit"] [];
  mkMcpTool "moltbook_get_post" ["post_id"] ["post_id"];
  mkMcpTool "moltbook_create_post" ["submolt"; "title"; "content"; "url"] ["submolt"; "title"];
  mkMcpTool "moltbook_delete_post" ["post_id"] ["post_id"];
  mkMcpTool "moltbook_get_comments" ["post_id"; "sort"] ["post_id"];
  mkMcpTool "moltbook_create_comment" ["post_id"; "content"; "parent_id"] ["post_id"; "content"];
  mkMcpTool "moltbook_upvote_post" ["post_id"] ["post_id"];
  mkMcpTool "moltbook_downvote_post" ["post_id"] ["post_id"];
  mkMcpTool "moltbook_upvote_comment" ["comment_id"] ["comment_id"];
  mkMcpTool "moltbook_search" ["query"; "type"; "limit"] ["query"];
  mkMcpTool "moltbook_follow" ["agent_name"] ["agent_name"];
  mkMcpTool "moltbook_unfollow" ["agent_name"] ["agent_name"];
  mkMcpTool "moltbook_subscribe" ["submolt_name"] ["submolt_name"];
  mkMcpTool "moltbook_unsubscribe" ["submolt_name"] ["submolt_name"];
  mkMcpTool "moltbook_list_submolts" [] [];
  mkMcpTool "moltbook_get_submolt" ["submolt_name"] ["submolt_name"];
  mkMcpTool "moltbook_get_profile" [] [];
  mkMcpTool "moltbook_get_agent_profile" ["agent_name"] ["agent_name"]
].

(** The [MoltbookClient] call a tool makes, with the argument values it
    passes ([args[k]], [None] when undefined); [V] is the type of the
    JSON values of [args]. *)
Inductive client_call (V : Type) :=
| GetFeed (sort limit : option V)
| GetPosts (submolt sort limit : option V)
| GetPost (post_id : option V)
| CreatePost (submolt title : option V) (content url : option V)
| DeletePost (post_id : option V)
| GetComments (post_id : option V) (sort : option V)
| CreateComment (post_id content : option V) (parent_id : option V)
| UpvotePost (post_id : option V)
| DownvotePost (post_id : option V)
| UpvoteComment (comment_id : option V)
| Search (query : option V) (type limit : option V)
| FollowAgent (agent_name : option V)
| UnfollowAgent (agent_name : option V)
| SubscribeSubmolt (submolt_name : option V)
| UnsubscribeSubmolt (submolt_name : option V)
| ListSubmolts
| GetSubmolt (submolt_name : option V)
| GetProfile
| GetAgentProfile (agent_name : option V).

Arguments GetFeed {V}. Arguments GetPosts {V}. Arguments GetPost {V}.
Arguments CreatePost {V}. Arguments DeletePost {V}. Arguments GetComments {V}.
Arguments CreateComment {V}. Arguments UpvotePost {V}. Arguments DownvotePost {V}.
Arguments UpvoteComment {V}. Arguments Search {V}. Arguments FollowAgent {V}.
Arguments UnfollowAgent {V}. Arguments SubscribeSubmolt {V}.
Arguments UnsubscribeSubmolt {V}. Arguments ListSubmolts {V}. Arguments GetSubmolt {V}.
Arguments GetProfile {V}. Arguments GetAgentProfile {V}.

(** [executeToolCall]: the client call of the matching [case]; [None]
    is the thrown 'Unknown tool: ...'. *)
Definition executeToolCall {V : Type} (toolName : string) (args : gmap string V)
    : option (client_call V) :=
  if String.eqb toolName "moltbook_get_feed" then
    Some (GetFeed (args !! "sort") (args !! "limit"))
  else if String.eqb toolName "moltbook_get_posts" then
    Some (GetPosts (args !! "submolt") (args !! "sort") (args !! "limit"))
  else if String.eqb toolName "moltbook_get_post" then
    Some (GetPost (args !! "post_id"))
  else if String.eqb toolName "moltbook_create_post" then
    Some (CreatePost (args !! "submolt") (args !! "title") (args !! "content") (args !! "url"))
  else if String.eqb toolName "moltbook_delete_post" then
    Some (DeletePost (args !! "post_id"))
  else if String.eqb toolName "moltbook_get_comments" then
    Some (GetComments (args !! "post_id") (args !! "sort"))
  else if String.eqb toolName "moltbook_create_comment" then
    Some (CreateComment (args !! "post_id") (args !! "content") (args !! "parent_id"))
  else if String.eqb toolName "moltbook_upvote_post" then
    Some (UpvotePost (args !! "post_id"))
  else if String.eqb toolName "moltbook_downvote_post" then
    Some (DownvotePost (args !! "post_id"))
  else if String.eqb toolName "moltbook_upvote_comment" then
    Some (UpvoteComment (args !! "comment_id"))
  else if String.eqb toolName "moltbook_search" then
    Some (Search (args !! "query") (args !! "type") (args !! "limit"))
  else if String.eqb toolName "moltbook_follow" then
    Some (FollowAgent (args !! "agent_name"))
  else if String.eqb toolName "moltbook_unfollow" then
    Some (UnfollowAgent (args !! "agent_name"))
  else if String.eqb toolName "moltbook_subscribe" then
    Some (SubscribeSubmolt (args !! "submolt_name"))
  else if String.eqb toolName "moltbook_unsubscribe" then
    Some (UnsubscribeSubmolt (args !! "submolt_name"))
  else if String.eqb toolName "moltbook_list_submolts" then
    Some ListSubmolts
  else if String.eqb toolName "moltbook_get_submolt" then
    Some (GetSubmolt (args !! "submolt_name"))
  else if String.eqb toolName "moltbook_get_profile" then
    Some GetProfile
  else if String.eqb toolName "moltbook_get_agent_profile" then
    Some (GetAgentProfile (args !! "agent_name"))
  else None.

(** The values a call passes to parameters the client types as plain
    [string] (cast with [as string], not [as string | undefined]). *)
Definition plain_params {V : Type} (c : client_call V) : list (option V) :=
  match c with
  | GetPost p | DeletePost p | UpvotePost p | DownvotePost p => [p]
  | CreatePost s t _ _ => [s; t]
  | GetComments p _ => [p]
  | CreateComment p c _ => [p; c]
  | UpvoteComment c => [c]
  | Search q _ _ => [q]
  | FollowAgent a | UnfollowAgent a | GetAgentProfile a => [a]
  | SubscribeSubmolt s | UnsubscribeSubmolt s | GetSubmolt s => [s]
  | GetFeed _ _ | GetPosts _ _ _ | ListSubmolts | GetProfile => []
  end.

End MoltbookTools.

(* ================================================================== *)
(** ** PollingManager: startAll and stopAll *)
(* ================================================================== *)

Module PollingAll.
Import Polling.

(** A [for (const name of this.pollers.keys())] loop calling [f] on
    each key of [ks] (the map's keys, in insertion order); an exception
    ends the loop and propagates. *)
Fixpoint each (f : string → manager → option (manager * list effect)) (ks : list string)
    (m : manager) : option (manager * list effect) :=
  match ks with
  | [] => Some (m, [])
  | k :: ks' =>
      match f k m with
      | None => None
      | Some (m1, e1) =>
          match each f ks' m1 with
          | None => None
          | Some (m2, e2) => Some (m2, e1 ++ e2)
          end
      end
  end.

Definition startAll (ks : list string) (m : manager) : option (manager * list effect) :=
  each startPoller ks m.

Definition stopAll (ks : list string) (m : manager) : option (manager * list effect) :=
  each stopPoller ks m.

End PollingAll.

(* ================================================================== *)
(** ** BitwardenCli: commands, environment and the unlock output *)
(* ================================================================== *)

Module Bitwarden.

(** An environment: [Record<string, string>]. *)
Abbreviation env := (gmap string string).

(** The [options] argument of [exec]. *)
Record ExecOptions := mkExecOptions {
  opt_session : option string;
  opt_env : option env
}.

(** The fields of a [BitwardenCli]; [appDataDir] is the private
    directory made by [mkdtempSync] in the constructor. *)
Record BitwardenCli := mkBitwardenCli {
  cliPath : string;
  organizationId : string;
  collectionId : string;
  appDataDir : string
}.

(** The environment [exec] runs [bw] with, given [process.env]: the
    spread of [process.env], then [BITWARDENCLI_APPDATA_DIR] and
    [BW_NOINTERACTION], then the spread of [options.env] (a later
    spread wins, as [∪] keeps its left operand); then [BW_SESSION] when
    [options.session] is truthy. *)
Definition exec_env (processEnv : env) (appDataDir : string) (options : option ExecOptions) : env :=
  let e : env :=
    default ∅ (options ≫= opt_env) ∪
      <["BW_NOINTERACTION" := "true"]> (<["BITWARDENCLI_APPDATA_DIR" := appDataDir]> processEnv) in
  match options ≫= opt_session with
  | Some s => if Session.truthy (Some s) then <["BW_SESSION" := s]> e else e
  | None => e
  end.

(** A [bw] invocation: the [args] and [options] passed to [exec]. *)
Record Command := mkCommand {
  cmd_args : list string;
  cmd_options : option ExecOptions
}.

Definition with_session (session : string) : option ExecOptions :=
  Some (mkExecOptions (Some session) None).

Record ListItemsOptions := mkListItemsOptions {
  search : option string;
  folderId : option string
}.

(** [GenerateOptions]; [length] and [words] are integer-valued numbers. *)
Record GenerateOptions := mkGenerateOptions {
  length : option Z;
  uppercase : option bool;
  lowercase : option bool;
  number : option bool;
  special : option bool;
  passphrase : option bool;
  words : option Z;
  separator : option string
}.

Definition login (clientId clientSecret : string) : Command :=
  mkCommand ["login"; "--apikey"]
    (Some (mkExecOptions None
       (Some (<["BW_CLIENTID" := clientId]> (<["BW_CLIENTSECRET" := clientSecret]> ∅))))).

Definition unlock_command (password : string) : Command :=
  mkCommand ["unlock"; "--passwordenv"; "BW_UNLOCK_PASSWD"]
    (Some (mkExecOptions None (Some (<["BW_UNLOCK_PASSWD" := password]> ∅)))).

Definition lock (session : string) : Command := mkCommand ["lock"] (with_session session).

Definition logout : Command := mkCommand ["logout"] None.

Definition sync (session : string) : Command := mkCommand ["sync"] (with_session session).

Definition status (session : option string) : Command :=
  mkCommand ["status"; "--raw"] (Some (mkExecOptions session None)).

Definition listItems (cli : BitwardenCli) (session : string) (options : option ListItemsOptions)
    : Command :=
  let args := ["list"; "items"; "--organizationid"; organizationId cli;
               "--collectionid"; collectionId cli] in
  let args := match options ≫= search with
              | Some s => if Session.truthy (Some s) then args ++ ["--search"; s] else args
              | None => args
              end in
  let args := match options ≫= folderId with
              | Some f => if Session.truthy (Some f) then args ++ ["--folderid"; f] else args
              | None => args
              end in
  mkCommand args (with_session session).

Definition getItem (session idOrName : string) : Command :=
  mkCommand ["get"; "item"; idOrName] (with_session session).

(** [createItem] and [editItem] with their base64 JSON payload
    [encoded] already computed. *)
Definition createItem (session encoded : string) : Command :=
  mkCommand ["create"; "item"; encoded] (with_session session).

Definition editItem (session id encoded : string) : Command :=
  mkCommand ["edit"; "item"; id; encoded] (with_session session).

Definition deleteItem (session id : string) (permanent : bool) : Command :=
  mkCommand (["delete"; "item"; id] ++ (if permanent then ["-p"] else [])) (with_session session).

Definition restoreItem (session id : string) : Command :=
  mkCommand ["restore"; "item"; id] (with_session session).

Definition listFolders (session : string) : Command :=
  mkCommand ["list"; "folders"] (with_session session).

Definition getFolder (session id : string) : Command :=
  mkCommand ["get"; "folder"; id] (with_session session).

Definition listCollections (cli : BitwardenCli) (session : string) : Command :=
  mkCommand ["list"; "collections"; "--organizationid"; organizationId cli] (with_session session).

Definition generate_args (options : option GenerateOptions) : list string :=
  ["generate"] ++
  (if bool_decide (options ≫= passphrase = Some true) then
     ["--passphrase"] ++
     (match options ≫= words with
      | Some w => ["--words"; TelegramPersist.number_to_string w] | None => [] end) ++
     (match options ≫= separator with Some s => ["--separator"; s] | None => [] end)
   else
     (match options ≫= length with
      | Some l => ["--length"; TelegramPersist.number_to_string l] | None => [] end) ++
     (if bool_decide (options ≫= uppercase = Some true) then ["-u"] else []) ++
     (if bool_decide (options ≫= lowercase = Some true) then ["-l"] else []) ++
     (if bool_decide (options ≫= number = Some true) then ["-n"] else []) ++
     (if bool_decide (options ≫= special = Some true) then ["--special"] else [])).

Definition generate (session : string) (options : option GenerateOptions) : Command :=
  mkCommand (generate_args options) (with_session session).

(** A call of one of the public methods, with its arguments. *)
Inductive call :=
| CLogin (clientId clientSecret : string)
| CUnlock (password : string)
| CLock (session : string)
| CLogout
| CSync (session : string)
| CStatus (session : option string)
| CListItems (session : string) (options : option ListItemsOptions)
| CGetItem (session idOrName : string)
| CCreateItem (session encoded : string)
| CEditItem (session id encoded : string)
| CDeleteItem (session id : string) (permanent : bool)
| CRestoreItem (session id : string)
| CListFolders (session : string)
| CGetFolder (session id : string)
| CListCollections (session : string)
| CGenerate (session : string) (options : option GenerateOptions).

Definition command (cli : BitwardenCli) (c : call) : Command :=
  match c with
  | CLogin i s => login i s
  | CUnlock p => unlock_command p
  | CLock s => lock s
  | CLogout => logout
  | CSync s => sync s
  | CStatus s => status s
  | CListItems s o => listItems cli s o
  | CGetItem s i => getItem s i
  | CCreateItem s e => createItem s e
  | CEditItem s i e => editItem s i e
  | CDeleteItem s i p => deleteItem s i p
  | CRestoreItem s i => restoreItem s i
  | CListFolders s => listFolders s
  | CGetFolder s i => getFolder s i
  | CListCollections s => listCollections cli s
  | CGenerate s o => generate s o
  end.

(** The [session] parameter of a call, if the method has one. *)
Definition call_session (c : call) : option string :=
  match c with
  | CLogin _ _ | CUnlock _ | CLogout => None
  | CStatus s => s
  | CLock s | CSync s | CListItems s _ | CGetItem s _ | CCreateItem s _ | CEditItem s _ _
  | CDeleteItem s _ _ | CRestoreItem s _ | CListFolders s | CGetFolder s _
  | CListCollections s | CGenerate s _ => Some s
  end.

(** The environment a call's [bw] process gets. *)
Definition call_env (processEnv : env) (cli : BitwardenCli) (c : call) : env :=
  exec_env processEnv (appDataDir cli) (cmd_options (command cli c)).

(** The unlock output is matched against the regular expression of
    [unlock]: the literal [BW_SESSION=] and a double quote, a captured
    run of one or more characters other than the double quote, and a
    double quote. *)
Definition quote : ascii := "034"%char.

Definition session_key : list ascii := String.list_ascii_of_string "BW_SESSION=" ++ [quote].

Fixpoint strip_prefix (p s : list ascii) : option (list ascii) :=
  match p, s with
  | [], _ => Some s
  | c :: p', d :: s' => if Ascii.eqb c d then strip_prefix p' s' else None
  | _ :: _, [] => None
  end.

(** The greedy run of characters other than the double quote, and what
    follows it. *)
Fixpoint span_nonquote (s : list ascii) : list ascii * list ascii :=
  match s with
  | [] => ([], [])
  | c :: s' =>
      if Ascii.eqb c quote then ([], s)
      else let '(a, b) := span_nonquote s' in (c :: a, b)
  end.

(** The regular expression anchored at the start of [s]: the literal,
    then a non-empty greedy run of non-quote characters and a quote. Backtracking the greedy run cannot help:
    a shorter run is followed by a non-quote character. *)
Definition match_at (s : list ascii) : option (list ascii) :=
  match strip_prefix session_key s with
  | None => None
  | Some r =>
      match span_nonquote r with
      | ([], _) => None
      | (_, []) => None
      | (tok, _ :: _) => Some tok
      end
  end.

(** [stdout.match(...)]: the leftmost match, its group 1. *)
Fixpoint session_match (s : list ascii) : option (list ascii) :=
  match match_at s with
  | Some t => Some t
  | None => match s with [] => None | _ :: s' => session_match s' end
  end.

(** [unlock]'s result from the command's [stdout]; [None] is the
    thrown 'Failed to parse BW_SESSION from unlock output' (a missing
    or empty group 1). *)
Definition unlock (stdout : string) : option string :=
  match session_match (String.list_ascii_of_string stdout) with
  | Some t => if Session.truthy (Some (String.string_of_list_ascii t))
              then Some (String.string_of_list_ascii t) else None
  | None => None
  end.

End Bitwarden.

(* ================================================================== *)
(** ** Bitwarden MCP tools and the session manager *)
(* ================================================================== *)

Module BitwardenTools.
Import Bitwarden.

(** [isUnlocked]. *)
Definition isUnlocked (m : Session.manager) : bool :=
  Session.SessionState_eqb (Session.sessionState m) Session.unlocked &&
  bool_decide (Session.session m ≠ None).

(** The input of [generate_password] after its schema defaults. *)
Record GeneratePasswordInput := mkGeneratePasswordInput {
  in_length : option Z;
  in_uppercase : option bool;
  in_lowercase : option bool;
  in_number : option bool;
  in_special : option bool;
  in_passphrase : option bool;
  in_words : option Z;
  in_separator : option string
}.

Definition with_defaults (i : GeneratePasswordInput) : GenerateOptions :=
  mkGenerateOptions (Some (default 20%Z (in_length i))) (Some (default true (in_uppercase i)))
    (Some (default true (in_lowercase i))) (Some (default true (in_number i)))
    (Some (default true (in_special i))) (Some (default false (in_passphrase i)))
    (Some (default 3%Z (in_words i))) (Some (default "-" (in_separator i))).

(** The tools of [registerFolderTools] and [registerMiscTools]. *)
Inductive tool :=
| ListFolders
| GetFolder (id : string)
| SyncVault
| GeneratePassword (input : GeneratePasswordInput)
| GetVaultStatus.

(** A tool's handler: the [bw] call it makes, or [None] when
    [getSession()] throws first. *)
Definition tool_call (m : Session.manager) (t : tool) : option call :=
  match Session.getSession m with
  | None => None
  | Some session =>
      Some (match t with
            | ListFolders => CListFolders session
            | GetFolder id => CGetFolder session id
            | SyncVault => CSync session
            | GeneratePassword i => CGenerate session (Some (with_defaults i))
            | GetVaultStatus => CStatus (Some session)
            end)
  end.

End BitwardenTools.

(* ================================================================== *)
(** ** Scenarios *)
(* ================================================================== *)

(** A Bitwarden CLI on which every command succeeds and unlock prints a
    session token, and one on which unlock, lock and logout fail. *)
Definition bw_cli_ok : Session.cli := Session.mkCli true (Some "tok") true true true.
Definition bw_cli_lock_logout_fail : Session.cli := Session.mkCli true None true false false.

Definition cfg_failing : Polling.PollerConfig := Polling.mkPollerConfig "a" 60000 false true.
Definition cfg_healthy : Polling.PollerConfig := Polling.mkPollerConfig "b" 60000 false false.

(** Two pollers on one manager; timer 0 calls "a", whose handler always
    throws, timer 1 calls "b", whose handler succeeds. *)
Definition two_pollers_trace : list Polling.event :=
  [Polling.EvRegister cfg_failing; Polling.EvRegister cfg_healthy;
   Polling.EvStart "a"; Polling.EvStart "b";
   Polling.EvTick 0; Polling.EvTick 1;
   Polling.EvSettle "a" (Polling.HThrow (Polling.ErrorObj "boom"));
   Polling.EvSettle "b" Polling.HOk;
   Polling.EvClock 5; Polling.EvTick 0; Polling.EvTick 1;
   Polling.EvSettle "a" (Polling.HThrow Polling.NonError);
   Polling.EvSettle "b" Polling.HOk].

(* ================================================================== *)
(** * Theorems *)
(* ================================================================== *)

(** 1001 distinct post ids "0", "1", ..., "1000", and a handler past its
    first poll that has seen the first 1000 of them, oldest first. *)
Definition ids1001 : list string :=
  (λ n, TelegramPersist.number_to_string (Z.of_nat n)) <$> seq 0 1001.

Definition handler_1000_seen : Moltbook.handler :=
  Moltbook.mkHandler (fold_left Moltbook.set_add (take 1000 ids1001) []) false.

Section CommandQueueProofs.
Import CommandQueue.

Lemma fires_le os rest k :
  Forall (λ j, result_of j = None) rest →
  then_both_fires (queue_before ((Settled <$> os) ++ rest) k) = true →
  k ≤ length os.
Proof.
  intros Hrest Hf. destruct k as [|k]; [lia|]. simpl in Hf.
  destruct (decide (k < length os)); [lia|].
  rewrite lookup_app_r in Hf by (rewrite length_fmap; lia).
  destruct (rest !! _) eqn:E; [|discriminate].
  rewrite Forall_lookup in Hrest. apply Hrest in E. by rewrite E in Hf.
Qed.

Lemma tail_unsettled r n :
  (r = [] ∨ r = [Running]) →
  Forall (λ j, result_of j = None) (r ++ replicate n Pending).
Proof.
  intros Hr. apply Forall_app. split.
  - destruct Hr as [-> | ->]; repeat constructor.
  - apply Forall_replicate. done.
Qed.

Lemma pending_at os r n k :
  (r = [] ∨ r = [Running]) →
  ((Settled <$> os) ++ r ++ replicate n Pending) !! k = Some Pending →
  length os + length r ≤ k.
Proof.
  intros Hr Hk. destruct (decide (k < length os)) as [Hl|Hl].
  - rewrite lookup_app_l in Hk by (rewrite length_fmap; lia).
    rewrite list_lookup_fmap in Hk. destruct (os !! k); discriminate.
  - rewrite lookup_app_r in Hk by (rewrite length_fmap; lia).
    rewrite length_fmap in Hk.
    destruct Hr as [-> | ->]; simpl in *; [lia|].
    destruct (k - length os) eqn:E; [discriminate|lia].
Qed.

Lemma running_at os r n k :
  (r = [] ∨ r = [Running]) →
  ((Settled <$> os) ++ r ++ replicate n Pending) !! k = Some Running →
  r = [Running] ∧ k = length os.
Proof.
  intros Hr Hk. destruct (decide (k < length os)) as [Hl|Hl].
  - rewrite lookup_app_l in Hk by (rewrite length_fmap; lia).
    rewrite list_lookup_fmap in Hk. destruct (os !! k); discriminate.
  - rewrite lookup_app_r in Hk by (rewrite length_fmap; lia).
    rewrite length_fmap in Hk.
    destruct Hr as [-> | ->]; simpl in *.
    + apply lookup_replicate in Hk as [? _]. discriminate.
    + destruct (k - length os) eqn:E; [split; [done|lia]|].
      apply lookup_replicate in Hk as [? _]. discriminate.
Qed.

Lemma step_shaped q c e q' :
  shaped q c → step q e = Some q' →
  shaped q' (match e with Begin _ => S c | _ => c end) ∧
  (∀ k, e = Begin k → k = c).
Proof.
  intros (os & r & n & -> & Hr & ->) Hs.
  destruct e as [|k|k o]; simpl in Hs.
  - injection Hs as <-. split; [|done].
    exists os, r, (S n). split; [|done].
    rewrite replicate_S_end. by rewrite !(assoc_L app).
  - destruct (_ !! k) as [[| |o]|] eqn:Hk; try discriminate.
    destruct (then_both_fires _) eqn:Hf; [|discriminate].
    injection Hs as <-.
    pose proof (pending_at _ _ _ _ Hr Hk) as Hge.
    pose proof (fires_le _ _ _ (tail_unsettled r n Hr) Hf) as Hle.
    assert (r = []) as ->.
    { destruct Hr as [-> | ->]; simpl in *; [done|lia]. }
    simpl in *. assert (k = length os) as -> by lia.
    destruct n as [|n].
    { rewrite lookup_app_r in Hk by (rewrite length_fmap; lia).
      rewrite length_fmap, Nat.sub_diag in Hk. discriminate. }
    split; [|intros ? [= ->]; lia].
    exists os, [Running], n.
    rewrite insert_app_r_alt by (rewrite length_fmap; lia).
    rewrite length_fmap, Nat.sub_diag. simpl. split; [done|]. split; [by right|lia].
  - destruct (_ !! k) as [[| |o']|] eqn:Hk; try discriminate.
    injection Hs as <-.
    destruct (running_at _ _ _ _ Hr Hk) as [-> ->].
    split; [|done].
    exists (os ++ [o]), [], n.
    rewrite insert_app_r_alt by (rewrite length_fmap; lia).
    rewrite length_fmap, Nat.sub_diag, fmap_app, length_app. simpl.
    rewrite <- (assoc_L app). split; [done|]. split; [by left|lia].
Qed.

Lemma run_shaped es q q' c :
  shaped q c → run q es = Some q' →
  shaped q' (c + length (begins es)) ∧
  begins es = seq c (length (begins es)).
Proof.
  revert q c. induction es as [|e es IH]; intros q c Hq Hr; simpl in Hr.
  - injection Hr as <-. simpl. by rewrite Nat.add_0_r.
  - destruct (step q e) as [q1|] eqn:Hs; [|discriminate].
    destruct (step_shaped _ _ _ _ Hq Hs) as [Hq1 Hk].
    destruct (IH _ _ Hq1 Hr) as [Hq' Hb].
    destruct e as [|k|k o]; simpl.
    + done.
    + rewrite (Hk k eq_refl). rewrite Nat.add_succ_r. split; [done|].
      simpl. f_equal. done.
    + done.
Qed.

Lemma shaped_running_le_1 q c :
  shaped q c → length (filter (λ j, is_running j = true) q) ≤ 1.
Proof.
  intros (os & r & n & -> & Hr & _).
  rewrite !filter_app, !length_app.
  assert (filter (λ j, is_running j = true) (Settled <$> os) = []) as ->.
  { induction os; simpl; [done|]. by rewrite filter_cons_False. }
  assert (filter (λ j, is_running j = true) (replicate n Pending) = []) as ->.
  { induction n; simpl; [done|]. by rewrite filter_cons_False. }
  destruct Hr as [-> | ->]; simpl; lia.
Qed.

End CommandQueueProofs.

(** C1: for every sequence of calls into [BitwardenCli.exec] (submissions,
    [fn] invocations and settlements in any event-loop interleaving):
    at most one [fn] (hence at most one [bw] invocation) is in flight, every
    job before it is settled and every job after it has not been started;
    the [fn]s are started in submission order 0, 1, 2, ...; and once the
    jobs before position [k] have settled, job [k] can start at once,
    whatever those jobs' outcomes (fulfilled or rejected). *)
Theorem exec_queue_serialized (es : list CommandQueue.event) (q : list CommandQueue.job) :
  CommandQueue.run [] es = Some q →
  length (filter (λ j, CommandQueue.is_running j = true) q) ≤ 1 ∧
  (∃ os r n, q = (CommandQueue.Settled <$> os) ++ r ++ replicate n CommandQueue.Pending ∧
             (r = [] ∨ r = [CommandQueue.Running])) ∧
  CommandQueue.begins es = seq 0 (length (CommandQueue.begins es)) ∧
  (∀ os n, q = (CommandQueue.Settled <$> os) ++ replicate (S n) CommandQueue.Pending →
     CommandQueue.step q (CommandQueue.Begin (length os)) =
       Some ((CommandQueue.Settled <$> os) ++ CommandQueue.Running ::
             replicate n CommandQueue.Pending)).
Proof.
  intros Hrun.
  assert (CommandQueue.shaped [] 0) as H0 by (exists [], [], 0; split; [done|]; split; [by left|done]).
  destruct (run_shaped _ _ _ _ H0 Hrun) as [Hq Hb].
  split; [by eapply shaped_running_le_1|].
  split; [destruct Hq as (os & r & n & ? & ? & _); by exists os, r, n|].
  split; [done|].
  intros os n ->. simpl.
  rewrite lookup_app_r by (rewrite length_fmap; lia).
  rewrite length_fmap, Nat.sub_diag. simpl.
  assert (then_both_fires_ok : CommandQueue.then_both_fires
    (CommandQueue.queue_before ((CommandQueue.Settled <$> os) ++
       CommandQueue.Pending :: replicate n CommandQueue.Pending) (length os)) = true).
  { destruct os as [|o os'] using rev_ind; [done|].
    rewrite length_app, Nat.add_1_r. simpl.
    rewrite lookup_app_l by (rewrite length_fmap, length_app; simpl; lia).
    rewrite fmap_app, lookup_app_r by (rewrite length_fmap; lia).
    rewrite length_fmap, Nat.sub_diag. done. }
  rewrite then_both_fires_ok.
  rewrite insert_app_r_alt by (rewrite length_fmap; lia).
  rewrite length_fmap, Nat.sub_diag. done.
Qed.

Lemma exec_queue_serialized_witness :
  CommandQueue.run [] [CommandQueue.Submit; CommandQueue.Submit; CommandQueue.Begin 0;
                       CommandQueue.Finish 0 CommandQueue.Rejected; CommandQueue.Begin 1]
    = Some [CommandQueue.Settled CommandQueue.Rejected; CommandQueue.Running] ∧
  CommandQueue.begins [CommandQueue.Submit; CommandQueue.Submit; CommandQueue.Begin 0;
                       CommandQueue.Finish 0 CommandQueue.Rejected; CommandQueue.Begin 1]
    = [0; 1].
Proof.
  split; [reflexivity|].
  destruct (exec_queue_serialized
              [CommandQueue.Submit; CommandQueue.Submit; CommandQueue.Begin 0;
               CommandQueue.Finish 0 CommandQueue.Rejected; CommandQueue.Begin 1]
              [CommandQueue.Settled CommandQueue.Rejected; CommandQueue.Running]
              eq_refl) as (_ & _ & Hb & _).
  exact Hb.
Defined.

Section SupervisorProofs.
Import Supervisor.

Lemma run_idle s k :
  process s = false → timers s = [] →
  run s (mjoin (replicate k [EvExit; EvTimer])) = (s, []).
Proof.
  intros Hp Ht. induction k as [|k IH]; [done|].
  simpl. rewrite Hp. unfold on_timer. rewrite Ht. simpl.
  rewrite IH. done.
Qed.

(** With no [stop()], a child that always crashes is restarted exactly
    five times, after 1000, 2000, 3000, 4000 and 5000 ms, and the sixth
    exit emits ['maxRestartsReached'] and leaves no restart pending. *)
Lemma crash_loop_restarts k :
  6 ≤ k →
  run init (crash_loop k) =
    (mkState false 5 false [], crash_signals).
Proof.
  intros Hk. unfold crash_loop.
  replace k with (6 + (k - 6)) by lia.
  rewrite replicate_add, join_app.
  change (run init (EvStart :: mjoin (replicate 6 [EvExit; EvTimer]) ++
                    mjoin (replicate (k - 6) [EvExit; EvTimer])) =
          (mkState false 5 false [], crash_signals)).
  assert (∀ s0 l1 l2, run s0 (l1 ++ l2) =
            let '(s1, o1) := run s0 l1 in let '(s2, o2) := run s1 l2 in (s2, o1 ++ o2)) as Happ.
  { intros s0 l1. revert s0. induction l1 as [|e l1 IH]; intros s0 l2; simpl.
    - by destruct (run s0 l2).
    - destruct (step s0 e) as [s1 o1]. rewrite IH.
      destruct (run s1 l1) as [s2 o2]. destruct (run s2 l2) as [s3 o3].
      by rewrite (assoc_L app). }
  rewrite app_comm_cons, Happ. vm_compute (run init _).
  cbv beta iota. rewrite run_idle by done. reflexivity.
Qed.

End SupervisorProofs.

(** C2 (the [stop()] part): [stop()] called while a restart is pending
    (the child has exited, so [this.process] is [null]) returns at once
    without setting [shuttingDown]; the pending timer then restarts the
    child, and its next crash schedules a further restart. *)
Theorem stop_during_backoff_restarts :
  Supervisor.stop (fst (Supervisor.run Supervisor.init [Supervisor.EvStart; Supervisor.EvExit]))
    = (fst (Supervisor.run Supervisor.init [Supervisor.EvStart; Supervisor.EvExit]), []) ∧
  Supervisor.run Supervisor.init
    [Supervisor.EvStart; Supervisor.EvExit; Supervisor.EvStop; Supervisor.EvTimer; Supervisor.EvExit]
  = (Supervisor.mkState false 2 false [2000%Z],
     [Supervisor.Spawned; Supervisor.ExitEmitted; Supervisor.RestartScheduled 1 1000;
      Supervisor.Spawned; Supervisor.ExitEmitted; Supervisor.RestartScheduled 2 2000]).
Proof. split; reflexivity. Qed.

Section ListFacts.
Context {A : Type}.

Lemma strongly_sorted_filter (R : A → A → Prop) f l :
  StronglySorted R l → StronglySorted R (List.filter f l).
Proof.
  induction l as [|a l IH]; intros Hs; simpl; [constructor|].
  inversion Hs as [|? ? Hl Ha]; subst.
  destruct (f a); [|by apply IH].
  constructor; [by apply IH|].
  apply Forall_forall. intros x Hx.
  apply list_elem_of_In, filter_In in Hx as [Hx _].
  apply (proj1 (Forall_forall _ _) Ha). by apply list_elem_of_In.
Qed.

Lemma strongly_sorted_snoc (R : A → A → Prop) l a :
  StronglySorted R l → (∀ x, x ∈ l → R x a) → StronglySorted R (l ++ [a]).
Proof.
  induction l as [|b l IH]; intros Hs Ha; simpl.
  - repeat constructor.
  - inversion Hs as [|? ? Hl Hb]; subst. constructor.
    + apply IH; [done|]. intros x Hx. apply Ha. by apply list_elem_of_further.
    + apply Forall_app. split; [done|]. constructor; [|constructor].
      apply Ha, list_elem_of_here.
Qed.

Lemma strongly_sorted_rev (R : A → A → Prop) l :
  StronglySorted R l → StronglySorted (λ a b, R b a) (rev l).
Proof.
  induction l as [|a l IH]; intros Hs; simpl; [constructor|].
  inversion Hs as [|? ? Hl Ha]; subst.
  apply strongly_sorted_snoc; [by apply IH|].
  intros x Hx. apply list_elem_of_In, in_rev, list_elem_of_In in Hx.
  by apply (proj1 (Forall_forall _ _) Ha).
Qed.

End ListFacts.

Section TelegramProofs.
Import Telegram.
Local Open Scope Z_scope.

Lemma insert_by_id_perm m l : insert_by_id m l ≡ₚ m :: l.
Proof.
  induction l as [|y l IH]; simpl; [done|].
  destruct (id m <? id y); [done|].
  rewrite IH. constructor.
Qed.

Lemma sort_by_id_perm_acc l acc :
  fold_left (λ acc m, insert_by_id m acc) l acc ≡ₚ l ++ acc.
Proof.
  revert acc. induction l as [|m l IH]; intros acc; simpl; [done|].
  rewrite IH, insert_by_id_perm. by rewrite Permutation_middle.
Qed.

Lemma sort_by_id_perm l : sort_by_id l ≡ₚ l.
Proof. unfold sort_by_id. by rewrite sort_by_id_perm_acc, app_nil_r. Qed.

Lemma insert_by_id_sorted m l :
  StronglySorted id_le l → StronglySorted id_le (insert_by_id m l).
Proof.
  induction l as [|y l IH]; intros Hs; simpl.
  - repeat constructor.
  - inversion Hs as [|? ? Hl Hy]; subst.
    destruct (id m <? id y) eqn:E.
    + apply Z.ltb_lt in E. constructor; [done|].
      constructor; [unfold id_le; lia|].
      eapply Forall_impl; [exact Hy|]. unfold id_le; intros; lia.
    + apply Z.ltb_ge in E. constructor; [by apply IH|].
      apply Forall_forall. intros x Hx.
      rewrite insert_by_id_perm in Hx.
      apply elem_of_cons in Hx as [->|Hx]; [unfold id_le; lia|].
      by apply (proj1 (Forall_forall _ _) Hy).
Qed.

Lemma sort_by_id_sorted l : StronglySorted id_le (sort_by_id l).
Proof.
  unfold sort_by_id.
  assert (∀ acc, StronglySorted id_le acc →
            StronglySorted id_le (fold_left (λ acc m, insert_by_id m acc) l acc)) as H.
  { induction l as [|m l IH]; intros acc Hacc; simpl; [done|].
    apply IH. by apply insert_by_id_sorted. }
  apply H. constructor.
Qed.

Lemma sorted_nodup_strict l :
  StronglySorted id_le l → NoDup (id <$> l) → StronglySorted id_lt l.
Proof.
  induction l as [|a l IH]; intros Hs Hnd; [constructor|].
  inversion Hs as [|? ? Hl Ha]; subst.
  rewrite fmap_cons in Hnd. apply NoDup_cons in Hnd as [Hnin Hnd].
  constructor; [by apply IH|].
  apply Forall_forall. intros x Hx.
  pose proof (proj1 (Forall_forall _ _) Ha x Hx) as Hle.
  unfold id_le, id_lt in *.
  destruct (decide (id a = id x)) as [Heq|]; [|lia].
  exfalso. apply Hnin. rewrite Heq. by apply list_elem_of_fmap_2.
Qed.

Lemma process_loop_after_cursor send d l st ms m :
  m ∈ fst (process_loop send d (Some l) st ms) → l < id m.
Proof.
  revert st. induction ms as [|x ms IH]; intros st Hm; simpl in Hm.
  - by apply elem_of_nil in Hm.
  - destruct (id x <=? l) eqn:E; [by eapply IH|].
    apply Z.leb_gt in E.
    destruct (isNewMessage st d x); [|by eapply IH].
    destruct (send x).
    + destruct (process_loop _ _ _ _ ms) as [out st'] eqn:Hl.
      simpl in Hm. apply elem_of_cons in Hm as [->|Hm]; [done|].
      apply (IH (markSeen st d x)). by rewrite Hl.
    + simpl in Hm. apply elem_of_cons in Hm as [->|Hm]; [done|].
      by apply elem_of_nil in Hm.
Qed.

Lemma process_loop_all_ok send d l st e ms :
  st !! d = Some e →
  StronglySorted id_lt ms →
  (∀ m, m ∈ ms → l < id m → st_id e < id m) →
  (∀ m, m ∈ ms → send m = true) →
  fst (process_loop send d (Some l) st ms) = List.filter (λ m, l <? id m) ms.
Proof.
  revert st e. induction ms as [|x ms IH]; intros st e Hst Hs Hcur Hsend; simpl; [done|].
  inversion Hs as [|? ? Hms Hx]; subst.
  destruct (id x <=? l) eqn:E.
  - apply Z.leb_le in E. rewrite (proj2 (Z.ltb_ge _ _)) by done.
    apply (IH st e); try done.
    + intros m Hm. apply Hcur. by apply list_elem_of_further.
    + intros m Hm. apply Hsend. by apply list_elem_of_further.
  - apply Z.leb_gt in E. rewrite (proj2 (Z.ltb_lt _ _)) by done.
    unfold isNewMessage. rewrite Hst.
    rewrite (proj2 (Z.ltb_lt _ _)) by (apply Hcur; [apply list_elem_of_here|done]).
    rewrite Hsend by apply list_elem_of_here.
    destruct (process_loop _ _ _ _ ms) as [out st'] eqn:Hl. simpl.
    f_equal.
    change out with (fst (out, st')). rewrite <- Hl.
    apply (IH _ (mkMessageState (id x) (date x) (hashText (text x)))); try done.
    + unfold markSeen. by rewrite lookup_insert_eq.
    + intros m Hm _. simpl.
      exact (proj1 (Forall_forall _ _) Hx m Hm).
    + intros m Hm. apply Hsend. by apply list_elem_of_further.
Qed.

End TelegramProofs.

(** C3 (code bug): the cursor of dialog 1 is set by [markSeen] on
    message 10 with text "a"; the fetch returns message 10 edited to
    "b". [isNewMessage] itself (and the spec's test) calls it new (same
    id, different [textHash]), yet [processDialog] never forwards it:
    its [message.id <= lastSeenId] skip runs first. *)
Lemma telegram_edit_at_cursor_not_forwarded :
  Telegram.isNewMessage (Telegram.markSeen ∅ 1 (Telegram.mkMsg 10 "" [97%Z])) 1
    (Telegram.mkMsg 10 "" [98%Z]) = true ∧
  Telegram.spec_is_new 10 (Telegram.hashText [97%Z]) (Telegram.mkMsg 10 "" [98%Z]) = true ∧
  fst (Telegram.processDialog (λ _, true) 1
         (Some [Telegram.mkMsg 10 "" [98%Z]])
         (Telegram.markSeen ∅ 1 (Telegram.mkMsg 10 "" [97%Z]))) = [].
Proof. split_and!; vm_compute; reflexivity. Qed.

(** X19: for a dialog with a stored cursor [e], [processDialog]
    never forwards a message whose id is at or below [st_id e] (not even
    an edit of the cursor message, which [isNewMessage] calls new); when the fetched
    ids are distinct and every forward succeeds, it forwards exactly the
    fetched messages with id above [st_id e], in strictly ascending id
    order. With [last_id = 10], the fetch [9; 11; 12; 10] (10 unchanged)
    forwards 11 then 12. *)
Theorem telegram_forwards_after_cursor (send : Telegram.TelegramMessage → bool) (d : Z)
    (st : Telegram.state) (e : Telegram.MessageState) (msgs : list Telegram.TelegramMessage) :
  st !! d = Some e →
  (∀ send' fetched m, m ∈ fst (Telegram.processDialog send' d fetched st) →
     (Telegram.st_id e < Telegram.id m)%Z) ∧
  (NoDup (Telegram.id <$> msgs) → (∀ m, m ∈ msgs → send m = true) →
     fst (Telegram.processDialog send d (Some msgs) st) =
       List.filter (λ m, Telegram.st_id e <? Telegram.id m)%Z (Telegram.sort_by_id msgs) ∧
     StronglySorted (λ a b, Telegram.id a < Telegram.id b)%Z
       (fst (Telegram.processDialog send d (Some msgs) st))) ∧
  map Telegram.id (fst (Telegram.processDialog (λ _, true) 1
     (Some [Telegram.mkMsg 9 "" [1%Z]; Telegram.mkMsg 11 "" [2%Z];
            Telegram.mkMsg 12 "" [3%Z]; Telegram.mkMsg 10 "" [104%Z; 105%Z]])
     {[1%Z := Telegram.mkMessageState 10 "" (Telegram.hashText [104%Z; 105%Z])]})) = [11; 12]%Z.
Proof.
  intros Hst.
  assert (Hlast : Telegram.getLastSeenId st d = Some (Telegram.st_id e))
    by (unfold Telegram.getLastSeenId; by rewrite Hst).
  split; [|split].
  - intros send' fetched m Hm. unfold Telegram.processDialog in Hm. rewrite Hlast in Hm.
    destruct fetched as [[|x l]|]; simpl in Hm; try by apply elem_of_nil in Hm.
    by eapply process_loop_after_cursor.
  - intros Hnd Hsend.
    assert (Hsorted : StronglySorted Telegram.id_lt (Telegram.sort_by_id msgs)).
    { apply sorted_nodup_strict; [apply sort_by_id_sorted|].
      by rewrite sort_by_id_perm. }
    assert (Hres : fst (Telegram.processDialog send d (Some msgs) st) =
              List.filter (λ m, Telegram.st_id e <? Telegram.id m)%Z (Telegram.sort_by_id msgs)).
    { unfold Telegram.processDialog. rewrite Hlast.
      destruct msgs as [|x l]; [done|].
      apply (process_loop_all_ok send d _ st e).
      - done.
      - done.
      - intros m _ Hm. exact Hm.
      - intros m Hm. apply Hsend. by rewrite <- (sort_by_id_perm (x :: l)). }
    split; [done|]. rewrite Hres.
    apply strongly_sorted_filter. exact Hsorted.
  - vm_compute. reflexivity.
Qed.

Section MoltbookProofs.
Import Moltbook.

Lemma set_has_spec s x : set_has s x = true ↔ x ∈ s.
Proof. unfold set_has. apply bool_decide_eq_true. Qed.

Lemma set_has_false s x : set_has s x = false ↔ x ∉ s.
Proof. unfold set_has. apply bool_decide_eq_false. Qed.

Lemma elem_of_set_add s x y : x ∈ set_add s y ↔ x ∈ s ∨ x = y.
Proof.
  unfold set_add. destruct (set_has s y) eqn:E.
  - apply set_has_spec in E. split; [by left|]. intros [?| ->]; done.
  - rewrite elem_of_app, list_elem_of_singleton. done.
Qed.

Lemma forward_loop_out send seen ps : fst (forward_loop send seen ps) = ps.
Proof.
  revert seen. induction ps as [|p ps IH]; intros seen; simpl; [done|].
  destruct (forward_loop _ _ ps) as [out seen2] eqn:E. simpl.
  f_equal. change out with (fst (out, seen2)). rewrite <- E. apply IH.
Qed.

Lemma forward_loop_seen send seen ps x :
  x ∈ snd (forward_loop send seen ps) ↔
  x ∈ seen ∨ ∃ p, p ∈ ps ∧ send p = true ∧ id p = x.
Proof.
  revert seen. induction ps as [|p ps IH]; intros seen; simpl.
  - split; [by left|]. intros [?|(? & Hp & _)]; [done|by apply elem_of_nil in Hp].
  - destruct (forward_loop _ _ ps) as [out seen2] eqn:E. simpl.
    change seen2 with (snd (out, seen2)). rewrite <- E, IH.
    destruct (send p) eqn:Hs; [rewrite elem_of_set_add|]; split.
    + intros [[?| ->]|(q & Hq & ? & ?)]; [by left|right; exists p; split; [apply list_elem_of_here|done]|].
      right. exists q. split; [by apply list_elem_of_further|done].
    + intros [?|(q & Hq & ? & ?)]; [by left; left|].
      apply elem_of_cons in Hq as [->|Hq]; [left; by right|].
      right. by exists q.
    + intros [?|(q & Hq & ? & ?)]; [by left|].
      right. exists q. split; [by apply list_elem_of_further|done].
    + intros [?|(q & Hq & ? & ?)]; [by left|].
      apply elem_of_cons in Hq as [->|Hq]; [congruence|].
      right. by exists q.
Qed.

Lemma trim_subset s x : x ∈ trimSeenIds s → x ∈ s.
Proof.
  unfold trimSeenIds. destruct (_ <? _); [|done].
  intros Hx. rewrite <- (firstn_skipn (length s - TRIM_TO_IDS) s).
  apply elem_of_app. by right.
Qed.

Lemma elem_of_newPosts seen posts p :
  p ∈ newPosts seen posts ↔ p ∈ posts ∧ set_has seen (id p) = false.
Proof.
  unfold newPosts. rewrite !list_elem_of_In, <- in_rev, filter_In, negb_true_iff.
  done.
Qed.

Lemma fold_set_add_nodup ids acc :
  NoDup (acc ++ ids) → fold_left set_add ids acc = acc ++ ids.
Proof.
  revert acc. induction ids as [|x ids IH]; intros acc Hnd; simpl.
  - by rewrite app_nil_r.
  - assert (set_has acc x = false) as Hx.
    { apply set_has_false. intros Hin.
      apply NoDup_app in Hnd as (_ & Hdis & _).
      apply (Hdis x Hin). apply list_elem_of_here. }
    unfold set_add at 2. rewrite Hx, IH; [by rewrite <- (assoc_L app)|].
    by rewrite <- (assoc_L app).
Qed.

Lemma fold_set_add_elem ids acc x :
  x ∈ fold_left set_add ids acc ↔ x ∈ acc ∨ x ∈ ids.
Proof.
  revert acc. induction ids as [|y ids IH]; intros acc; simpl.
  - split; [by left|]. intros [?|Hx]; [done|by apply elem_of_nil in Hx].
  - rewrite IH, elem_of_set_add, elem_of_cons. tauto.
Qed.

Lemma fold_set_add_length ids acc :
  length (fold_left set_add ids acc) ≤ length acc + length ids.
Proof.
  revert acc. induction ids as [|y ids IH]; intros acc; simpl; [lia|].
  etransitivity; [apply IH|]. unfold set_add.
  destruct (set_has acc y); [lia|]. rewrite length_app. simpl. lia.
Qed.

Lemma poll_nonfirst_out send posts h :
  isFirstPoll h = false →
  fst (poll send (Some posts) h) = newPosts (seenPostIds h) posts.
Proof.
  intros Hf. unfold poll. rewrite Hf.
  pose proof (forward_loop_out send (seenPostIds h) (newPosts (seenPostIds h) posts)) as Ho.
  destruct (forward_loop _ _ _) as [o s']. done.
Qed.

End MoltbookProofs.

(** C4: on a poll after the first, (1) an id ends up in the seen set only
    if it was there before or a fetched post with that id, unseen before,
    was forwarded successfully; (2) a fetched unseen post whose forward
    fails (every forward of a post with that id in the batch fails) stays
    unseen and is forwarded again on the next poll that fetches it;
    (3) a batch whose ids are all seen forwards nothing; (4) a batch in
    which exactly one fetched post has an unseen id forwards exactly one
    message. *)
Theorem moltbook_mark_seen_after_success (send : Moltbook.MoltbookPost → bool)
    (posts : list Moltbook.MoltbookPost) (h : Moltbook.handler)
    (out : list Moltbook.MoltbookPost) (h' : Moltbook.handler) :
  Moltbook.isFirstPoll h = false →
  Moltbook.poll send (Some posts) h = (out, h') →
  (∀ x, x ∈ Moltbook.seenPostIds h' →
     x ∈ Moltbook.seenPostIds h ∨
     ∃ p, p ∈ posts ∧ Moltbook.set_has (Moltbook.seenPostIds h) x = false ∧
          send p = true ∧ Moltbook.id p = x) ∧
  (∀ p, p ∈ posts → Moltbook.set_has (Moltbook.seenPostIds h) (Moltbook.id p) = false →
     (∀ q, q ∈ posts → Moltbook.id q = Moltbook.id p → send q = false) →
     (Moltbook.id p ∉ Moltbook.seenPostIds h') ∧
     (∀ send2 posts2, p ∈ posts2 → p ∈ fst (Moltbook.poll send2 (Some posts2) h'))) ∧
  ((∀ p, p ∈ posts → Moltbook.set_has (Moltbook.seenPostIds h) (Moltbook.id p) = true) →
     out = []) ∧
  (length (List.filter (λ p, negb (Moltbook.set_has (Moltbook.seenPostIds h) (Moltbook.id p))) posts) = 1 →
     length out = 1).
Proof.
  intros Hfirst Hpoll. unfold Moltbook.poll in Hpoll. rewrite Hfirst in Hpoll.
  destruct (Moltbook.forward_loop _ _ _) as [out0 seen'] eqn:Hloop.
  injection Hpoll as <- <-.
  assert (Hout : out0 = Moltbook.newPosts (Moltbook.seenPostIds h) posts).
  { change out0 with (fst (out0, seen')). rewrite <- Hloop. apply forward_loop_out. }
  assert (Hseen : ∀ x, x ∈ seen' ↔ x ∈ Moltbook.seenPostIds h ∨
            ∃ p, p ∈ Moltbook.newPosts (Moltbook.seenPostIds h) posts ∧ send p = true ∧ Moltbook.id p = x).
  { intros x. change seen' with (snd (out0, seen')). rewrite <- Hloop. apply forward_loop_seen. }
  assert (Hadded : ∀ x, x ∈ Moltbook.seenPostIds (Moltbook.mkHandler (Moltbook.trimSeenIds seen') false) →
     x ∈ Moltbook.seenPostIds h ∨
     ∃ p, p ∈ posts ∧ Moltbook.set_has (Moltbook.seenPostIds h) x = false ∧
          send p = true ∧ Moltbook.id p = x).
  { intros x Hx. simpl in Hx. apply trim_subset, Hseen in Hx as [?|(p & Hp & Hs & <-)]; [by left|].
    apply elem_of_newPosts in Hp as [Hp Hu]. right. by exists p. }
  split; [exact Hadded|]. split; [|split].
  - intros p Hp Hu Hfail.
    assert (Hnot : Moltbook.id p ∉ Moltbook.seenPostIds (Moltbook.mkHandler (Moltbook.trimSeenIds seen') false)).
    { intros Hin. apply Hadded in Hin as [Hin|(q & Hq & _ & Hs & Hid)].
      - apply set_has_false in Hu. done.
      - rewrite (Hfail q Hq Hid) in Hs. discriminate. }
    split; [exact Hnot|].
    intros send2 posts2 Hp2. rewrite poll_nonfirst_out by done.
    apply elem_of_newPosts. split; [done|]. by apply set_has_false.
  - intros Hall. rewrite Hout. unfold Moltbook.newPosts.
    assert (List.filter (λ post, negb (Moltbook.set_has (Moltbook.seenPostIds h) (Moltbook.id post))) posts = [])
      as ->; [|done].
    clear - Hall. induction posts as [|q posts IH]; simpl; [done|].
    rewrite (Hall q (list_elem_of_here _ _)). simpl. apply IH.
    intros x Hx. apply Hall. by apply list_elem_of_further.
  - intros Hone. rewrite Hout. unfold Moltbook.newPosts. by rewrite length_rev.
Qed.

(** C5 (code bug): on a poll after the first, with nothing seen, a
    feed that lists the older post first (as the configurable 'top' or
    'hot' sort may) is forwarded newer post first: the handler reverses
    the feed order, which puts the oldest first only for a feed sorted
    newest first. *)
Lemma moltbook_forward_order_is_reversed_feed :
  fst (Moltbook.poll (λ _, true)
         (Some [Moltbook.mkPost "a" 1; Moltbook.mkPost "b" 2])
         (Moltbook.mkHandler [] false))
    = [Moltbook.mkPost "b" 2; Moltbook.mkPost "a" 1] ∧
  (Moltbook.created_at (Moltbook.mkPost "a" 1) < Moltbook.created_at (Moltbook.mkPost "b" 2))%Z.
Proof. split; [vm_compute; reflexivity|simpl; lia]. Qed.

(** X20: a poll whose feed fetch fails changes nothing (so the
    next successful fetch is still treated as the first); the first poll
    whose fetch succeeds forwards nothing, adds every fetched id and
    clears [isFirstPoll]; every later poll forwards exactly the fetched
    posts whose ids are unseen, in the reverse of the feed order, which
    is oldest-first when the feed lists posts newest-first (sort 'new',
    also used for 'rising'). Fetching [a; b] then [a; b; c] forwards
    nothing, then exactly "c". *)
Theorem moltbook_first_poll_then_unseen (send : Moltbook.MoltbookPost → bool)
    (posts : list Moltbook.MoltbookPost) (h : Moltbook.handler) :
  Moltbook.poll send None h = ([], h) ∧
  (Moltbook.isFirstPoll h = true →
     fst (Moltbook.poll send (Some posts) h) = [] ∧
     Moltbook.isFirstPoll (snd (Moltbook.poll send (Some posts) h)) = false ∧
     (∀ p, p ∈ posts → Moltbook.id p ∈ Moltbook.seenPostIds (snd (Moltbook.poll send (Some posts) h)))) ∧
  (Moltbook.isFirstPoll h = false →
     fst (Moltbook.poll send (Some posts) h) =
       rev (List.filter (λ p, negb (Moltbook.set_has (Moltbook.seenPostIds h) (Moltbook.id p))) posts) ∧
     (StronglySorted (λ a b, Moltbook.created_at b ≤ Moltbook.created_at a)%Z posts →
        StronglySorted (λ a b, Moltbook.created_at a ≤ Moltbook.created_at b)%Z
          (fst (Moltbook.poll send (Some posts) h)))) ∧
  (fst (Moltbook.poll send (Some [Moltbook.mkPost "a" 1; Moltbook.mkPost "b" 2]) Moltbook.init) = [] ∧
   map Moltbook.id (fst (Moltbook.poll send
      (Some [Moltbook.mkPost "a" 1; Moltbook.mkPost "b" 2; Moltbook.mkPost "c" 3])
      (snd (Moltbook.poll send (Some [Moltbook.mkPost "a" 1; Moltbook.mkPost "b" 2]) Moltbook.init))))
     = ["c"]).
Proof.
  split; [done|]. split; [|split].
  - intros Hf. unfold Moltbook.poll. rewrite Hf. simpl.
    split; [done|]. split; [done|].
    intros p Hp. apply fold_set_add_elem. right. by apply list_elem_of_fmap_2.
  - intros Hf. rewrite poll_nonfirst_out by done. split; [done|].
    intros Hs. unfold Moltbook.newPosts.
    apply (strongly_sorted_rev (λ a b, Moltbook.created_at b ≤ Moltbook.created_at a)%Z).
    by apply strongly_sorted_filter.
  - split; [reflexivity|].
    rewrite poll_nonfirst_out by reflexivity. vm_compute. reflexivity.
Qed.

(** C9: [trimSeenIds] leaves a set of at most 1000 ids unchanged and cuts
    a larger one to its 500 most recently inserted ids; every poll after
    the first ends with it; the first poll, starting from the empty set
    (reachable handlers only have [isFirstPoll] with no ids seen) with a
    fetch of at most 1000 posts (the handler asks for 25), leaves at most
    1000 ids. Inserting 1001 distinct ids and trimming leaves exactly the
    last 500 inserted. *)
Theorem moltbook_trim_keeps_latest (s : list string) :
  (Moltbook.MAX_SEEN_IDS < length s →
     Moltbook.trimSeenIds s = drop (length s - Moltbook.TRIM_TO_IDS) s ∧
     length (Moltbook.trimSeenIds s) = Moltbook.TRIM_TO_IDS) ∧
  (length s ≤ Moltbook.MAX_SEEN_IDS → Moltbook.trimSeenIds s = s) ∧
  (∀ send posts h, Moltbook.isFirstPoll h = false →
     Moltbook.seenPostIds (snd (Moltbook.poll send (Some posts) h)) =
       Moltbook.trimSeenIds (snd (Moltbook.forward_loop send (Moltbook.seenPostIds h)
                                    (Moltbook.newPosts (Moltbook.seenPostIds h) posts)))) ∧
  (∀ send posts h, Moltbook.isFirstPoll h = true → Moltbook.seenPostIds h = [] →
     length posts ≤ Moltbook.MAX_SEEN_IDS →
     length (Moltbook.seenPostIds (snd (Moltbook.poll send (Some posts) h))) ≤ Moltbook.MAX_SEEN_IDS) ∧
  (∀ ids : list string, length ids = 1001 → NoDup ids →
     Moltbook.trimSeenIds (fold_left Moltbook.set_add ids []) = drop 501 ids ∧
     length (Moltbook.trimSeenIds (fold_left Moltbook.set_add ids [])) = 500).
Proof.
  split; [|split; [|split; [|split]]].
  - intros Hlt. unfold Moltbook.trimSeenIds.
    rewrite (proj2 (Nat.ltb_lt _ _)) by done. split; [done|].
    rewrite length_drop. unfold Moltbook.MAX_SEEN_IDS, Moltbook.TRIM_TO_IDS in *. lia.
  - intros Hle. unfold Moltbook.trimSeenIds.
    by rewrite (proj2 (Nat.ltb_ge _ _)).
  - intros send posts h Hf. unfold Moltbook.poll. rewrite Hf.
    by destruct (Moltbook.forward_loop _ _ _).
  - intros send posts h Hf Hs Hlen. unfold Moltbook.poll. rewrite Hf, Hs. simpl.
    etransitivity; [apply fold_set_add_length|]. rewrite length_fmap. simpl. lia.
  - intros ids Hlen Hnd. rewrite fold_set_add_nodup by done. simpl.
    unfold Moltbook.trimSeenIds. rewrite Hlen. simpl.
    split; [done|]. rewrite length_drop. lia.
Qed.

Section SessionProofs.
Import Session.

Lemma token_inv_init : token_inv init.
Proof. intros t [=]. Qed.

Lemma cli_unlock_nonempty c t : cli_unlock c = Some t → t ≠ "".
Proof.
  unfold cli_unlock. destruct (unlock_stdout c) as [t'|]; [|discriminate].
  destruct (String.eqb_spec t' ""); [discriminate|]. by intros [= <-].
Qed.

Lemma token_inv_initialize c m :
  session m = None → token_inv (fst (initialize c m)).
Proof.
  intros Hm. unfold initialize, init_login, init_unlock, init_sync.
  destruct (login_ok c); [|intros t Ht; simpl in Ht; congruence].
  destruct (cli_unlock c) as [t|] eqn:Hu; [|intros t' Ht; simpl in Ht; congruence].
  pose proof (cli_unlock_nonempty _ _ Hu).
  destruct (sync_ok c); intros t' [= <-]; done.
Qed.

Lemma shutdown_no_token c m : session (shutdown c m) = None.
Proof. done. Qed.

Lemma token_inv_run m ops :
  token_inv m → init_when_no_token m ops → token_inv (run m ops).
Proof.
  unfold run. revert m. induction ops as [|o ops IH]; intros m Hinv Hw; simpl; [done|].
  destruct Hw as [Ho Hw]. apply IH; [|done].
  destruct o as [c| |c]; simpl.
  - by apply token_inv_initialize.
  - done.
  - intros t [=].
Qed.

Lemma getSession_spec m t :
  getSession m = Some t ↔ session m = Some t ∧ t ≠ "" ∧ sessionState m = unlocked.
Proof.
  unfold getSession. destruct (session m) as [s|]; simpl.
  - destruct (String.eqb_spec s "") as [->|Hs]; destruct (sessionState m); simpl;
      split; intros H; try discriminate; try (destruct H as (? & ? & ?); congruence).
    all: injection H as <-; done.
  - split; [intros [=]|intros ([=] & _)].
Qed.

End SessionProofs.


(** C6 (counterexample): after an [initialize()] that succeeds and a
    [shutdown()] whose lock and logout both fail, the token is null while
    the state is still 'unlocked'. *)
Lemma session_unlocked_without_token :
  Session.session (Session.run Session.init
     [Session.OpInitialize bw_cli_ok; Session.OpShutdown bw_cli_lock_logout_fail]) = None ∧
  Session.sessionState (Session.run Session.init
     [Session.OpInitialize bw_cli_ok; Session.OpShutdown bw_cli_lock_logout_fail]) = Session.unlocked.
Proof. split; reflexivity. Qed.

(** C6 (amended): along call sequences that do not call [initialize()]
    while a token is held, at every point after a call returns or
    throws a non-null token implies state 'unlocked'; [shutdown()]
    always leaves the token null (whatever state it leaves). *)
Theorem session_token_implies_unlocked (ops : list Session.op) :
  Session.init_when_no_token Session.init ops →
  (∀ t, Session.session (Session.run Session.init ops) = Some t →
        Session.sessionState (Session.run Session.init ops) = Session.unlocked) ∧
  (∀ c m, Session.session (Session.shutdown c m) = None).
Proof.
  intros Hw. split.
  - intros t Ht. apply (token_inv_run _ _ token_inv_init Hw t Ht).
  - intros c m. apply shutdown_no_token.
Qed.

(** C7 (counterexample): [getSession()] throws in a state that is
    'unlocked' (after a [shutdown()] whose lock and logout failed), and it
    returns the token while [initialize()] is still awaiting its initial
    sync. *)
Lemma getSession_not_exactly_unlocked :
  Session.sessionState (Session.run Session.init
     [Session.OpInitialize bw_cli_ok; Session.OpShutdown bw_cli_lock_logout_fail]) = Session.unlocked ∧
  Session.getSession (Session.run Session.init
     [Session.OpInitialize bw_cli_ok; Session.OpShutdown bw_cli_lock_logout_fail]) = None ∧
  match Session.init_login bw_cli_ok Session.init with
  | Some m1 => match Session.init_unlock bw_cli_ok m1 with
               | Some m2 => Session.getSession m2
               | None => None
               end
  | None => None
  end = Some "tok".
Proof. split; [|split]; reflexivity. Qed.

(** C7 (amended): [getSession()] returns [t] exactly when the token is
    [t], non-empty, and the state is 'unlocked', and throws otherwise; so
    it throws whenever the state is not 'unlocked', before [initialize()]
    runs, while [initialize()] awaits login, and after any [shutdown()];
    once unlock has succeeded it returns the new token, even while
    [initialize()] still awaits its initial sync. *)
Theorem getSession_guard (m : Session.manager) (t : string) (c : Session.cli) :
  (Session.getSession m = Some t ↔
     Session.session m = Some t ∧ t ≠ "" ∧ Session.sessionState m = Session.unlocked) ∧
  (Session.sessionState m ≠ Session.unlocked → Session.getSession m = None) ∧
  Session.getSession Session.init = None ∧
  (∀ m1, Session.init_login c m = Some m1 → Session.getSession m1 = None) ∧
  Session.getSession (Session.shutdown c m) = None ∧
  (∀ m1 m2, Session.init_login c m = Some m1 → Session.init_unlock c m1 = Some m2 →
     Session.getSession m2 = Session.cli_unlock c).
Proof.
  split; [apply getSession_spec|].
  split; [|split; [done|split; [|split]]].
  - intros Hne. destruct (Session.getSession m) as [t'|] eqn:E; [|done].
    apply getSession_spec in E as (_ & _ & ?). done.
  - intros m1. unfold Session.init_login. destruct (Session.login_ok c); [|discriminate].
    intros [= <-]. unfold Session.getSession. simpl.
    by destruct (Session.truthy (Session.session m)).
  - unfold Session.getSession. done.
  - intros m1 m2 _. unfold Session.init_unlock.
    destruct (Session.cli_unlock c) as [t'|] eqn:Hu; [|discriminate].
    intros [= <-]. pose proof (cli_unlock_nonempty _ _ Hu) as Hne.
    unfold Session.getSession. simpl.
    destruct (String.eqb_spec t' ""); done.
Qed.

(* ================================================================== *)
(** ** PollingManager *)
(* ================================================================== *)

Section PollingProofs.

Lemma settle_inv (n : string) (res : Polling.handler_result) (m m' : Polling.manager)
  (eff : list Polling.effect) :
Polling.settle n res m = Some (m', eff) →
∃ st st' fl, Polling.pollers m !! n = Some st ∧
  Polling.pollers m' = <[n := st']> (Polling.pollers m) ∧
  Polling.intervals m' = Polling.intervals m ∧
  Polling.next_timer m' = Polling.next_timer m ∧
  Polling.inflight m' = fl ∧ Polling.now m' = Polling.now m ∧
  Polling.config st' = Polling.config st ∧
  Polling.timer st' = Polling.timer st ∧ Polling.running st' = Polling.running st ∧
  match res with
  | Polling.HOk =>
      Polling.lastRun st' = Some (Polling.now m) ∧ Polling.lastError st' = None ∧
      Polling.runCount st' = S (Polling.runCount st) ∧ eff = []
  | Polling.HThrow e =>
      Polling.lastRun st' = Polling.lastRun st ∧
      Polling.lastError st' = Some (Polling.errorMessage e) ∧
      Polling.runCount st' = Polling.runCount st ∧
      eff = (if Polling.hasOnError (Polling.config st)
             then [Polling.OnErrorCalled n (Polling.errorMessage e)] else [])
  end.
Proof.
unfold Polling.settle.
destruct (Polling.remove_first n (Polling.inflight m)) as [fl|]; [|done].
destruct (Polling.pollers m !! n) as [st|] eqn:Hn; [|done].
destruct res as [|e]; intros [= <- <-]; eexists st, _, fl; simpl; eauto 20.
Qed.

Lemma inv_update (m : Polling.manager) (n : string) (st st' : Polling.PollerState)
  (fl : list string) (z : Z) :
Polling.pollers m !! n = Some st →
Polling.timer st' = Polling.timer st → Polling.running st' = Polling.running st →
Polling.timers_consistent m →
Polling.timers_consistent
  (Polling.mkManager (<[n := st']> (Polling.pollers m)) (Polling.intervals m)
     (Polling.next_timer m) fl z).
Proof.
intros Hn Ht Hr (H1 & H2 & H3). split; [|split]; simpl.
- intros p sp. rewrite lookup_insert. case_decide as Hp.
  + intros [= <-]. subst p. rewrite Ht, Hr. exact (H1 n st Hn).
  + apply H1.
- intros t p Hp. destruct (H2 t p Hp) as (sp & Hsp & Htp).
  destruct (decide (n = p)) as [<-|Hne].
  + exists st'. rewrite lookup_insert_eq. split; [done|]. congruence.
  + exists sp. rewrite lookup_insert_ne; done.
- exact H3.
Qed.

Lemma inv_register (cfg : Polling.PollerConfig) (m m' : Polling.manager) :
Polling.register cfg m = Some m' →
Polling.timers_consistent m → Polling.timers_consistent m'.
Proof.
unfold Polling.register. case_bool_decide as Hs; [done|]. intros [= <-].
intros (H1 & H2 & H3). split; [|split]; simpl.
- intros p sp. rewrite lookup_insert. case_decide as Hp.
  + intros [= <-]. simpl. split; [split; [done|intros []; done]|done].
  + apply H1.
- intros t p Hp. destruct (H2 t p Hp) as (sp & Hsp & Htp). exists sp.
  rewrite lookup_insert_ne; [done|]. intros <-. apply Hs. by eexists.
- exact H3.
Qed.

Lemma inv_start (n : string) (m m' : Polling.manager) (eff : list Polling.effect) :
Polling.startPoller n m = Some (m', eff) →
Polling.timers_consistent m → Polling.timers_consistent m'.
Proof.
unfold Polling.startPoller. destruct (Polling.pollers m !! n) as [st|] eqn:Hn; [|done].
destruct (Polling.running st) eqn:Hr; [intros [= <- _]; done|].
intros Heq (H1 & H2 & H3).
assert (Hnone : Polling.timer st = None).
{ destruct (H1 n st Hn) as [[_ Hx] _]. rewrite Hr in Hx.
  destruct (Polling.timer st); [|done]. exfalso. assert (false = true) as Hf by (apply Hx; by eexists). done. }
set (t := Polling.next_timer m) in *.
assert (Hfresh : Polling.intervals m !! t = None) by (apply H3; lia).
assert (Hm' : m' = Polling.mkManager
    (<[n := Polling.mkPollerState (Polling.config st) (Some t) true (Polling.lastRun st)
              (Polling.lastError st) (Polling.runCount st)]> (Polling.pollers m))
    (<[t := n]> (Polling.intervals m)) (S t)
    (if Polling.immediate (Polling.config st) then Polling.inflight m ++ [n]
     else Polling.inflight m) (Polling.now m)).
{ destruct (Polling.immediate (Polling.config st)); simpl in Heq;
    injection Heq as <- _; simpl; by rewrite insert_insert_eq. }
subst m'. split; [|split]; simpl.
- intros p sp. rewrite lookup_insert. case_decide as Hp.
  + intros [= <-]. subst p. simpl. split; [split; [by eexists|done]|].
    intros t' [= <-]. by rewrite lookup_insert_eq.
  + intros Hsp. destruct (H1 p sp Hsp) as [Hi Ht]. split; [done|].
    intros t' Ht'. pose proof (Ht t' Ht') as Hp'.
    rewrite lookup_insert_ne; [done|]. intros <-. congruence.
- intros t' p Hp. rewrite lookup_insert in Hp. case_decide as Ht'.
  + injection Hp as <-. subst t'. eexists. by rewrite lookup_insert_eq.
  + destruct (H2 t' p Hp) as (sp & Hsp & Htp).
    destruct (decide (n = p)) as [<-|Hne]; [congruence|].
    exists sp. rewrite lookup_insert_ne; done.
- intros t' Ht'. rewrite lookup_insert_ne; [|lia]. apply H3. lia.
Qed.

Lemma inv_stop (n : string) (m m' : Polling.manager) (eff : list Polling.effect) :
Polling.stopPoller n m = Some (m', eff) →
Polling.timers_consistent m → Polling.timers_consistent m'.
Proof.
unfold Polling.stopPoller. destruct (Polling.pollers m !! n) as [st|] eqn:Hn; [|done].
intros Heq (H1 & H2 & H3).
assert (Hm' : ∃ ivs, m' = Polling.mkManager
    (<[n := Polling.mkPollerState (Polling.config st) None false (Polling.lastRun st)
              (Polling.lastError st) (Polling.runCount st)]> (Polling.pollers m))
    ivs (Polling.next_timer m) (Polling.inflight m) (Polling.now m) ∧
    (∀ t p, ivs !! t = Some p ↔ Polling.intervals m !! t = Some p ∧ Polling.timer st ≠ Some t)).
{ destruct (Polling.timer st) as [t0|] eqn:Ht0; injection Heq as <- _.
  - eexists. split; [done|]. intros t p. rewrite lookup_delete. case_decide; subst; [|naive_solver].
    split; [done|]. intros [_ []]; done.
  - eexists. split; [done|]. naive_solver. }
destruct Hm' as (ivs & -> & Hivs). split; [|split]; simpl.
- intros p sp. rewrite lookup_insert. case_decide as Hp.
  + intros [= <-]. simpl. split; [split; [done|intros []; done]|done].
  + intros Hsp. destruct (H1 p sp Hsp) as [Hi Ht]. split; [done|].
    intros t' Ht'. apply Hivs. split; [by apply Ht|].
    intros Hst. specialize (Ht t' Ht'). destruct (H1 n st Hn) as [_ Hn'].
    specialize (Hn' t' Hst). congruence.
- intros t' p Hp. apply Hivs in Hp as [Hp Hne'].
  destruct (H2 t' p Hp) as (sp & Hsp & Htp).
  destruct (decide (n = p)) as [<-|Hne]; [congruence|].
  exists sp. rewrite lookup_insert_ne; done.
- intros t' Ht'. destruct (ivs !! t') eqn:E; [|done].
  apply Hivs in E as [E _]. rewrite H3 in E; done.
Qed.

Lemma inv_step (m : Polling.manager) (e : Polling.event) :
Polling.timers_consistent m → Polling.timers_consistent (Polling.step_total m e).
Proof.
intros Hinv. unfold Polling.step_total.
destruct (Polling.step m e) as [[m' eff]|] eqn:Hs; [|done].
destruct e as [cfg|n|n|n|t|n res|z]; simpl in Hs.
- destruct (Polling.register cfg m) as [m1|] eqn:Hr; [|done].
  injection Hs as <- _. by eapply inv_register.
- by eapply inv_start.
- by eapply inv_stop.
- unfold Polling.runPoller_call in Hs. destruct (Polling.pollers m !! n); [|done].
  injection Hs as <- _. destruct Hinv as (H1 & H2 & H3). done.
- unfold Polling.tick, Polling.runPoller_call in Hs.
  destruct (Polling.intervals m !! t) as [n|]; [|done].
  destruct (Polling.pollers m !! n); [|done].
  injection Hs as <- _. destruct Hinv as (H1 & H2 & H3). done.
- destruct (settle_inv _ _ _ _ _ Hs) as (st & st' & fl & Hn & Hp & Hi & Hnt & _ & Hnow & _ & Ht & Hr & _).
  destruct m' as [ps ivs nt fl' z]. simpl in *. subst.
  by eapply inv_update.
- injection Hs as <- _. destruct Hinv as (H1 & H2 & H3). done.
Qed.

Lemma inv_run (m : Polling.manager) (es : list Polling.event) :
Polling.timers_consistent m → Polling.timers_consistent (Polling.run m es).
Proof.
revert m. induction es as [|e es IH]; intros m Hm; simpl; [done|].
apply IH, inv_step, Hm.
Qed.

Lemma inv_empty : Polling.timers_consistent Polling.empty.
Proof. split; [|split]; simpl; intros *; rewrite ?lookup_empty; done. Qed.

Lemma stats_other_step (m m' : Polling.manager) (e : Polling.event) (q : string)
  (eff : list Polling.effect) :
is_Some (Polling.pollers m !! q) →
(∀ r, e ≠ Polling.EvSettle q r) →
Polling.step m e = Some (m', eff) →
Polling.stats q m' = Polling.stats q m.
Proof.
intros Hq Hne Hs. unfold Polling.stats.
destruct e as [cfg|n|n|n|t|n res|z]; simpl in Hs.
- unfold Polling.register in Hs. case_bool_decide as Hc; [done|].
  injection Hs as <- _. simpl. rewrite lookup_insert_ne; [done|].
  intros <-. by apply Hc.
- unfold Polling.startPoller in Hs. destruct (Polling.pollers m !! n) as [st|] eqn:Hn; [|done].
  destruct (Polling.running st); [by injection Hs as <- _|].
  destruct (Polling.immediate (Polling.config st)); injection Hs as <- _; simpl;
    rewrite !lookup_insert; repeat case_decide; subst; rewrite ?Hn; done.
- unfold Polling.stopPoller in Hs. destruct (Polling.pollers m !! n) as [st|] eqn:Hn; [|done].
  destruct (Polling.timer st); injection Hs as <- _; simpl;
    rewrite lookup_insert; case_decide; subst; rewrite ?Hn; done.
- unfold Polling.runPoller_call in Hs. destruct (Polling.pollers m !! n); [|done].
  by injection Hs as <- _.
- unfold Polling.tick, Polling.runPoller_call in Hs.
  destruct (Polling.intervals m !! t) as [n|]; [|done].
  destruct (Polling.pollers m !! n); [|done]. by injection Hs as <- _.
- destruct (settle_inv _ _ _ _ _ Hs) as (st & st' & fl & Hn & Hp & _).
  rewrite Hp, lookup_insert_ne; [done|]. intros <-. by apply (Hne res).
- by injection Hs as <- _.
Qed.

End PollingProofs.


(** C8: every settlement of a handler invocation of a registered poller
    [n] updates that poller only. On success its lastRun is the current
    time, its runCount grows by one and its lastError is cleared; on a
    throw its lastError is the error message (Unknown error for a thrown
    non-Error), onError is called with that message when configured, and
    runCount and lastRun are kept. In both cases the poller keeps its
    timer and running flag, the active interval timers are unchanged and
    every other poller is left as it was. No event other than a
    settlement of [q] changes the counters of a registered poller [q].
    On two pollers where the handler of a always throws, b counts both
    of its ticks and both interval timers stay active. *)
Theorem poller_failure_isolated :
  (∀ (m m' : Polling.manager) (n : string) (res : Polling.handler_result)
     (eff : list Polling.effect),
    Polling.settle n res m = Some (m', eff) →
    (∃ st st', Polling.pollers m !! n = Some st ∧ Polling.pollers m' !! n = Some st' ∧
       Polling.timer st' = Polling.timer st ∧ Polling.running st' = Polling.running st ∧
       match res with
       | Polling.HOk =>
           Polling.lastRun st' = Some (Polling.now m) ∧ Polling.lastError st' = None ∧
           Polling.runCount st' = S (Polling.runCount st) ∧ eff = []
       | Polling.HThrow e =>
           Polling.lastRun st' = Polling.lastRun st ∧
           Polling.lastError st' = Some (Polling.errorMessage e) ∧
           Polling.runCount st' = Polling.runCount st ∧
           eff = (if Polling.hasOnError (Polling.config st)
                  then [Polling.OnErrorCalled n (Polling.errorMessage e)] else [])
       end) ∧
    Polling.intervals m' = Polling.intervals m ∧
    (∀ q, q ≠ n → Polling.pollers m' !! q = Polling.pollers m !! q)) ∧
  (∀ (m0 m1 : Polling.manager) (e : Polling.event) (q : string) (eff : list Polling.effect),
    is_Some (Polling.pollers m0 !! q) →
    (∀ r, e ≠ Polling.EvSettle q r) →
    Polling.step m0 e = Some (m1, eff) →
    Polling.stats q m1 = Polling.stats q m0) ∧
  (let m2 := Polling.run Polling.empty two_pollers_trace in
   Polling.stats "b" m2 = Some (Some 5%Z, None, 2) ∧
   Polling.stats "a" m2 = Some (None, Some "Unknown error", 0) ∧
   Polling.intervals m2 !! 0 = Some "a" ∧ Polling.intervals m2 !! 1 = Some "b").
Proof.
  split; [|split].
  - intros m m' n res eff Hs.
    destruct (settle_inv _ _ _ _ _ Hs)
      as (st & st' & fl & Hn & Hp & Hi & _ & _ & _ & _ & Ht & Hr & Hres).
    split; [|split].
    + exists st, st'. rewrite Hp, lookup_insert_eq. done.
    + done.
    + intros q Hq. rewrite Hp, lookup_insert_ne; done.
  - intros m0 m1 e q eff Hq Hne Hs. by eapply stats_other_step.
  - vm_compute. repeat split.
Qed.

(** C10: [startPoller] on a poller that is already running returns the
    manager unchanged and produces no effect: no handler call and no new
    interval timer. In every state reachable from an empty manager the
    pollers and timers are consistent ([timers_consistent]): a poller is
    running exactly when it holds an active timer that calls it, and no
    two active timers call the same poller. *)
Theorem start_running_is_noop :
  (∀ (m : Polling.manager) (n : string) (st : Polling.PollerState),
    Polling.pollers m !! n = Some st → Polling.running st = true →
    Polling.startPoller n m = Some (m, [])) ∧
  (∀ es, Polling.timers_consistent (Polling.run Polling.empty es)) ∧
  (∀ es p t1 t2,
    Polling.intervals (Polling.run Polling.empty es) !! t1 = Some p →
    Polling.intervals (Polling.run Polling.empty es) !! t2 = Some p → t1 = t2) ∧
  (∀ es p st,
    Polling.pollers (Polling.run Polling.empty es) !! p = Some st →
    (Polling.running st = true ↔
     ∃ t, Polling.timer st = Some t ∧ Polling.intervals (Polling.run Polling.empty es) !! t = Some p)).
Proof.
  split; [|split; [|split]].
  - intros m n st Hn Hr. unfold Polling.startPoller. by rewrite Hn, Hr.
  - intros es. apply inv_run, inv_empty.
  - intros es p t1 t2 H1 H2.
    destruct (inv_run Polling.empty es inv_empty) as (_ & Hi & _).
    destruct (Hi t1 p H1) as (s1 & Hs1 & Ht1). destruct (Hi t2 p H2) as (s2 & Hs2 & Ht2).
    congruence.
  - intros es p st Hst.
    destruct (inv_run Polling.empty es inv_empty) as (Hp & _ & _).
    destruct (Hp p st Hst) as [Hr Ht]. rewrite Hr. split.
    + intros [t Hts]. exists t. split; [done|]. by apply Ht.
    + intros (t & Hts & _). by exists t.
Qed.

(* ================================================================== *)
(** ** Witnesses *)
(* ================================================================== *)

Lemma telegram_forwards_after_cursor_witness :
  NoDup (Telegram.id <$> [Telegram.mkMsg 12 "" [99%Z]; Telegram.mkMsg 9 "" [97%Z];
                          Telegram.mkMsg 11 "" [98%Z]; Telegram.mkMsg 10 "" [98%Z]]) ∧
  map Telegram.id (fst (Telegram.processDialog (λ _, true) 1
     (Some [Telegram.mkMsg 12 "" [99%Z]; Telegram.mkMsg 9 "" [97%Z];
            Telegram.mkMsg 11 "" [98%Z]; Telegram.mkMsg 10 "" [98%Z]])
     (Telegram.markSeen ∅ 1 (Telegram.mkMsg 10 "" [97%Z])))) = [11; 12]%Z.
Proof.
  assert (Hst : Telegram.markSeen ∅ 1 (Telegram.mkMsg 10 "" [97%Z]) !! 1%Z
                = Some (Telegram.mkMessageState 10 "" (Telegram.hashText [97%Z])))
    by (vm_compute; reflexivity).
  assert (Hnd : NoDup (Telegram.id <$> [Telegram.mkMsg 12 "" [99%Z]; Telegram.mkMsg 9 "" [97%Z];
                          Telegram.mkMsg 11 "" [98%Z]; Telegram.mkMsg 10 "" [98%Z]]))
    by (apply (bool_decide_unpack _); vm_compute; exact I).
  split; [exact Hnd|].
  destruct (telegram_forwards_after_cursor (λ _, true) 1 _ _
              [Telegram.mkMsg 12 "" [99%Z]; Telegram.mkMsg 9 "" [97%Z];
               Telegram.mkMsg 11 "" [98%Z]; Telegram.mkMsg 10 "" [98%Z]] Hst)
    as (_ & H2 & _).
  rewrite (proj1 (H2 Hnd (λ _ _, eq_refl))). vm_compute. reflexivity.
Defined.

Lemma moltbook_mark_seen_after_success_witness :
  Moltbook.poll (λ _, true) (Some [Moltbook.mkPost "a" 1; Moltbook.mkPost "b" 2])
    (Moltbook.mkHandler ["a"] false)
    = ([Moltbook.mkPost "b" 2], Moltbook.mkHandler ["a"; "b"] false) ∧
  length [Moltbook.mkPost "b" 2] = 1.
Proof.
  assert (Hp : Moltbook.poll (λ _, true) (Some [Moltbook.mkPost "a" 1; Moltbook.mkPost "b" 2])
                 (Moltbook.mkHandler ["a"] false)
               = ([Moltbook.mkPost "b" 2], Moltbook.mkHandler ["a"; "b"] false))
    by (vm_compute; reflexivity).
  split; [exact Hp|].
  destruct (moltbook_mark_seen_after_success _ _ (Moltbook.mkHandler ["a"] false) _ _ eq_refl Hp)
    as (_ & _ & _ & H4).
  apply H4. vm_compute. reflexivity.
Defined.

Lemma moltbook_first_poll_then_unseen_witness :
  Moltbook.isFirstPoll (Moltbook.mkHandler ["a"] false) = false ∧
  fst (Moltbook.poll (λ _, true)
         (Some [Moltbook.mkPost "c" 3; Moltbook.mkPost "b" 2; Moltbook.mkPost "a" 1])
         (Moltbook.mkHandler ["a"] false)) = [Moltbook.mkPost "b" 2; Moltbook.mkPost "c" 3] ∧
  StronglySorted (λ a b, Moltbook.created_at a ≤ Moltbook.created_at b)%Z
    (fst (Moltbook.poll (λ _, true)
            (Some [Moltbook.mkPost "c" 3; Moltbook.mkPost "b" 2; Moltbook.mkPost "a" 1])
            (Moltbook.mkHandler ["a"] false))).
Proof.
  destruct (moltbook_first_poll_then_unseen (λ _, true)
              [Moltbook.mkPost "c" 3; Moltbook.mkPost "b" 2; Moltbook.mkPost "a" 1]
              (Moltbook.mkHandler ["a"] false))
    as (_ & _ & H3 & _).
  destruct (H3 eq_refl) as [Heq Hs].
  split; [reflexivity|]. split; [rewrite Heq; vm_compute; reflexivity|].
  apply Hs. repeat (constructor; simpl; try lia).
Defined.

Lemma moltbook_trim_keeps_latest_witness :
  length ids1001 = 1001 ∧ NoDup ids1001 ∧
  Moltbook.trimSeenIds (fold_left Moltbook.set_add ids1001 []) = drop 501 ids1001 ∧
  length (Moltbook.trimSeenIds (fold_left Moltbook.set_add ids1001 [])) = 500 ∧
  length (Moltbook.seenPostIds handler_1000_seen) = 1000 ∧
  Moltbook.seenPostIds (snd (Moltbook.poll (λ _, true) (Some [Moltbook.mkPost "1000" 0])
                               handler_1000_seen)) = drop 501 ids1001.
Proof.
  assert (Hlen : length ids1001 = 1001) by (vm_compute; reflexivity).
  assert (Hnd : NoDup ids1001) by (apply (bool_decide_unpack _); vm_compute; exact I).
  destruct (moltbook_trim_keeps_latest
              (snd (Moltbook.forward_loop (λ _, true) (Moltbook.seenPostIds handler_1000_seen)
                      (Moltbook.newPosts (Moltbook.seenPostIds handler_1000_seen)
                         [Moltbook.mkPost "1000" 0]))))
    as (H1 & _ & H3 & _ & H5).
  destruct (H5 ids1001 Hlen Hnd) as [Ht Htl].
  split_and!; [exact Hlen|exact Hnd|exact Ht|exact Htl|vm_compute; reflexivity|].
  rewrite (H3 (λ _, true) [Moltbook.mkPost "1000" 0] handler_1000_seen eq_refl).
  assert (Hgt : Moltbook.MAX_SEEN_IDS <
    length (snd (Moltbook.forward_loop (λ _, true) (Moltbook.seenPostIds handler_1000_seen)
                   (Moltbook.newPosts (Moltbook.seenPostIds handler_1000_seen)
                      [Moltbook.mkPost "1000" 0]))))
    by (apply Nat.ltb_lt; vm_compute; reflexivity).
  rewrite (proj1 (H1 Hgt)). vm_compute. reflexivity.
Defined.

Lemma session_token_implies_unlocked_witness :
  Session.init_when_no_token Session.init [Session.OpInitialize bw_cli_ok] ∧
  Session.sessionState (Session.run Session.init [Session.OpInitialize bw_cli_ok])
    = Session.unlocked.
Proof.
  assert (Hw : Session.init_when_no_token Session.init [Session.OpInitialize bw_cli_ok])
    by (split; [reflexivity|exact I]).
  split; [exact Hw|].
  apply (proj1 (session_token_implies_unlocked _ Hw) "tok"). reflexivity.
Defined.

Lemma getSession_guard_witness :
  Session.sessionState Session.init ≠ Session.unlocked ∧ Session.getSession Session.init = None.
Proof.
  assert (H : Session.sessionState Session.init ≠ Session.unlocked) by discriminate.
  split; [exact H|].
  exact (proj1 (proj2 (getSession_guard Session.init "" bw_cli_ok)) H).
Defined.

Lemma poller_failure_isolated_witness :
  Polling.step (Polling.run Polling.empty (take 6 two_pollers_trace))
    (Polling.EvSettle "a" (Polling.HThrow (Polling.ErrorObj "boom")))
  = Some (Polling.step_total (Polling.run Polling.empty (take 6 two_pollers_trace))
            (Polling.EvSettle "a" (Polling.HThrow (Polling.ErrorObj "boom"))),
          [Polling.OnErrorCalled "a" "boom"]) ∧
  Polling.stats "b" (Polling.step_total (Polling.run Polling.empty (take 6 two_pollers_trace))
            (Polling.EvSettle "a" (Polling.HThrow (Polling.ErrorObj "boom"))))
  = Polling.stats "b" (Polling.run Polling.empty (take 6 two_pollers_trace)).
Proof.
  assert (Hs : Polling.step (Polling.run Polling.empty (take 6 two_pollers_trace))
    (Polling.EvSettle "a" (Polling.HThrow (Polling.ErrorObj "boom")))
  = Some (Polling.step_total (Polling.run Polling.empty (take 6 two_pollers_trace))
            (Polling.EvSettle "a" (Polling.HThrow (Polling.ErrorObj "boom"))),
          [Polling.OnErrorCalled "a" "boom"])) by (vm_compute; reflexivity).
  split; [exact Hs|].
  destruct poller_failure_isolated as (_ & H2 & _).
  refine (H2 _ _ _ "b" [Polling.OnErrorCalled "a" "boom"] _ _ Hs).
  - vm_compute. eexists. reflexivity.
  - intros r Hr. inversion Hr.
Defined.

Lemma start_running_is_noop_witness :
  Polling.pollers (Polling.run Polling.empty [Polling.EvRegister cfg_failing; Polling.EvStart "a"])
    !! "a" = Some (Polling.mkPollerState cfg_failing (Some 0) true None None 0) ∧
  Polling.startPoller "a"
    (Polling.run Polling.empty [Polling.EvRegister cfg_failing; Polling.EvStart "a"])
  = Some (Polling.run Polling.empty [Polling.EvRegister cfg_failing; Polling.EvStart "a"], []).
Proof.
  assert (Hn : Polling.pollers
                 (Polling.run Polling.empty [Polling.EvRegister cfg_failing; Polling.EvStart "a"])
               !! "a" = Some (Polling.mkPollerState cfg_failing (Some 0) true None None 0))
    by (vm_compute; reflexivity).
  split; [exact Hn|].
  exact (proj1 start_running_is_noop _ _ _ Hn eq_refl).
Defined.

(* ================================================================== *)
(** ** Telegram: state, hash and polling *)
(* ================================================================== *)

Section TelegramExtraProofs.
Local Open Scope Z_scope.

Lemma number_string_roundtrip (z : Z) :
  TelegramPersist.string_to_number (TelegramPersist.number_to_string z) = Some z.
Proof.
  unfold TelegramPersist.string_to_number, TelegramPersist.number_to_string.
  rewrite <- (DecimalZ.of_to z) at 2.
  destruct (Z.to_int z) as [d|d]; destruct d; try reflexivity;
    rewrite NilZero.isi by discriminate; reflexivity.
Qed.

Lemma toInt32_shift (y : Z) : ∃ k, Telegram.toInt32 y = y + k * 2 ^ 32.
Proof.
  unfold Telegram.toInt32.
  pose proof (Z.div_mod y (2 ^ 32) ltac:(lia)) as Hd.
  destruct (Z.leb_spec (2 ^ 31) (y mod 2 ^ 32)).
  - exists (- (y / 2 ^ 32) - 1). lia.
  - exists (- (y / 2 ^ 32)). lia.
Qed.

Lemma toInt32_cong (y w : Z) : y mod 2 ^ 32 = w mod 2 ^ 32 → Telegram.toInt32 y = Telegram.toInt32 w.
Proof. intros H. unfold Telegram.toInt32. by rewrite H. Qed.

Lemma toInt32_range (y : Z) : - 2 ^ 31 ≤ Telegram.toInt32 y < 2 ^ 31.
Proof.
  unfold Telegram.toInt32. pose proof (Z.mod_pos_bound y (2 ^ 32) ltac:(lia)).
  destruct (Z.leb_spec (2 ^ 31) (y mod 2 ^ 32)); lia.
Qed.

Lemma mod_shift (y k : Z) : (y + k * 2 ^ 32) mod 2 ^ 32 = y mod 2 ^ 32.
Proof. apply Z.mod_add. lia. Qed.

Lemma hash_step (h c : Z) :
  (let h' := Telegram.toInt32 (Telegram.toInt32 h * 32) - h + c in
   Z.land (Telegram.toInt32 h') (Telegram.toInt32 h')) = Telegram.toInt32 (31 * h + c).
Proof.
  cbv zeta. rewrite Z.land_diag. apply toInt32_cong.
  destruct (toInt32_shift h) as [k1 H1]. destruct (toInt32_shift (Telegram.toInt32 h * 32)) as [k2 H2].
  rewrite H2, H1.
  replace ((h + k1 * 2 ^ 32) * 32 + k2 * 2 ^ 32 - h + c)
    with (31 * h + c + (32 * k1 + k2) * 2 ^ 32) by ring.
  apply mod_shift.
Qed.

Lemma hash_poly_cong (t : list Z) (h h' : Z) :
  h mod 2 ^ 32 = h' mod 2 ^ 32 →
  TelegramHash.hash_poly t h mod 2 ^ 32 = TelegramHash.hash_poly t h' mod 2 ^ 32.
Proof.
  revert h h'. induction t as [|c t IH]; intros h h' H; simpl; [done|].
  apply IH. rewrite Z.add_mod, (Z.add_mod (31 * h')), Z.mul_mod, (Z.mul_mod 31 h'), H by lia.
  reflexivity.
Qed.

Lemma hash_fold (t : list Z) (h : Z) :
  Telegram.toInt32 h = h →
  fold_left (λ hash ch,
       let h' := Telegram.toInt32 (Telegram.toInt32 hash * 32) - hash + ch in
       Z.land (Telegram.toInt32 h') (Telegram.toInt32 h')) t h
  = Telegram.toInt32 (TelegramHash.hash_poly t h).
Proof.
  revert h. induction t as [|c t IH]; intros h Hh; simpl; [done|].
  rewrite hash_step, IH.
  - apply toInt32_cong. apply hash_poly_cong.
    destruct (toInt32_shift (31 * h + c)) as [k Hk]. rewrite Hk. apply mod_shift.
  - destruct (toInt32_shift (Telegram.toInt32 (31 * h + c))) as [k Hk].
    apply toInt32_cong. destruct (toInt32_shift (31 * h + c)) as [k' Hk'].
    rewrite Hk'. apply mod_shift.
Qed.

Lemma hashText_poly (t : list Z) :
  Telegram.hashText t = Telegram.toInt32 (TelegramHash.hash_poly t 0).
Proof. unfold Telegram.hashText. apply hash_fold. reflexivity. Qed.

Lemma process_loop_other (send : Telegram.TelegramMessage → bool) (d : Z) (last : option Z)
    (st : Telegram.state) (ms : list Telegram.TelegramMessage) (d' : Z) :
  d' ≠ d → snd (Telegram.process_loop send d last st ms) !! d' = st !! d'.
Proof.
  intros Hne. revert st. induction ms as [|m ms IH]; intros st; simpl; [done|].
  destruct (match last with Some l => Telegram.id m <=? l | None => false end); [apply IH|].
  destruct (Telegram.isNewMessage st d m); [|apply IH].
  destruct (send m); [|done].
  pose proof (IH (Telegram.markSeen st d m)) as H.
  destruct (Telegram.process_loop _ _ _ (Telegram.markSeen st d m) ms). simpl in *.
  rewrite H. unfold Telegram.markSeen. rewrite lookup_insert_ne; auto.
Qed.

Lemma processDialog_other (send : Telegram.TelegramMessage → bool) (d : Z)
    (fetched : option (list Telegram.TelegramMessage)) (st : Telegram.state) (d' : Z) :
  d' ≠ d → snd (Telegram.processDialog send d fetched st) !! d' = st !! d'.
Proof.
  intros Hne. unfold Telegram.processDialog.
  destruct fetched as [[|m ms]|]; simpl; try done. apply process_loop_other, Hne.
Qed.

Lemma process_loop_cursor (send : Telegram.TelegramMessage → bool) (d L : Z)
    (st : Telegram.state) (ms : list Telegram.TelegramMessage) :
  (∃ e, st !! d = Some e ∧ L ≤ Telegram.st_id e) →
  ∃ e, snd (Telegram.process_loop send d (Some L) st ms) !! d = Some e ∧ L ≤ Telegram.st_id e.
Proof.
  revert st. induction ms as [|m ms IH]; intros st Hst; simpl; [done|].
  destruct (Z.leb_spec (Telegram.id m) L) as [Hle|Hgt]; [by apply IH|].
  destruct (Telegram.isNewMessage st d m); [|by apply IH].
  destruct (send m); [|done].
  pose proof (IH (Telegram.markSeen st d m)) as H.
  destruct (Telegram.process_loop _ _ _ (Telegram.markSeen st d m) ms). simpl in *.
  apply H. unfold Telegram.markSeen. rewrite lookup_insert_eq. eexists; split; [done|]. simpl. lia.
Qed.

Lemma poll_fold_other (send : Z → Telegram.TelegramMessage → bool)
    (fetch : Z → option (list Telegram.TelegramMessage)) (x : Z) (st : Telegram.state) :
  ∀ L out st1,
    (∀ dlg, dlg ∈ L → TelegramPolling.dialog_id dlg ≠ x) →
    (∀ m, (x, m) ∉ out) → st1 !! x = st !! x →
    snd (fold_left (TelegramPolling.poll_step send fetch) L (out, st1)) !! x = st !! x ∧
    ∀ m, (x, m) ∉ fst (fold_left (TelegramPolling.poll_step send fetch) L (out, st1)).
Proof.
  intros L. induction L as [|dlg L IH]; intros out st1 Hf Hout Hst; simpl; [done|].
  unfold TelegramPolling.poll_step at 2.
  pose proof (processDialog_other (send (TelegramPolling.dialog_id dlg))
                (TelegramPolling.dialog_id dlg) (fetch (TelegramPolling.dialog_id dlg)) st1 x)
    as Hoth.
  destruct (Telegram.processDialog _ _ _ st1) as [o st2]. simpl in Hoth.
  apply IH.
  - intros d' Hd'. apply Hf. by apply elem_of_cons; right.
  - intros m Hm. apply elem_of_app in Hm as [Hm|Hm]; [by apply (Hout m)|].
    apply list_elem_of_fmap in Hm as (m' & Heq & _). injection Heq as Heq _.
    eapply Hf; [by apply elem_of_cons; left|by symmetry].
  - rewrite Hoth; [done|]. intros Heq. eapply Hf; [by apply elem_of_cons; left|by symmetry].
Qed.

End TelegramExtraProofs.

(** X1: [import(export())] restores the message state exactly: every
    dialog id comes back from its decimal key, with the same cursor. *)
Theorem telegram_export_import_roundtrip (st : Telegram.state) :
  TelegramPersist.import_state (TelegramPersist.export_state st) = Some st.
Proof.
  unfold TelegramPersist.import_state, TelegramPersist.export_state.
  assert (H : ∀ l : list (Z * Telegram.MessageState),
    mapM (λ kv : string * Telegram.MessageState,
            (λ z, (z, kv.2)) <$> TelegramPersist.string_to_number kv.1)
      ((λ kv, (TelegramPersist.number_to_string kv.1, kv.2)) <$> l) = Some l).
  { induction l as [|[k v] l IH]; [done|].
    rewrite fmap_cons. cbn [mapM fst snd]. rewrite number_string_roundtrip, IH. done. }
  rewrite H. simpl. f_equal.
  transitivity (list_to_map (map_to_list st) : Telegram.state); [|apply list_to_map_to_list].
  symmetry. apply list_to_map_proper; [apply NoDup_fst_map_to_list|apply Permutation_rev].
Qed.

(** X2: [hashText] is a 32-bit signed value, and replacing two adjacent
    code units [a, b] of a text by [a + 1, b - 31] keeps the hash; so
    after [markSeen] of a message, an edit of that form to the same
    message (same id) is not reported new by [isNewMessage]
    (for instance "Aa" edited to "BB"). *)
Theorem telegram_hash_collision_edit_missed (p s : list Z) (a b : Z)
    (st : Telegram.state) (d i : Z) (date date' : string) :
  (- 2 ^ 31 ≤ Telegram.hashText (p ++ [a; b] ++ s) < 2 ^ 31)%Z ∧
  Telegram.hashText (p ++ [a; b] ++ s) = Telegram.hashText (p ++ [(a + 1)%Z; (b - 31)%Z] ++ s) ∧
  Telegram.isNewMessage (Telegram.markSeen st d (Telegram.mkMsg i date (p ++ [a; b] ++ s))) d
    (Telegram.mkMsg i date' (p ++ [(a + 1)%Z; (b - 31)%Z] ++ s)) = false.
Proof.
  assert (Heq : Telegram.hashText (p ++ [a; b] ++ s) = Telegram.hashText (p ++ [(a + 1)%Z; (b - 31)%Z] ++ s)).
  { rewrite !hashText_poly. unfold TelegramHash.hash_poly. rewrite !fold_left_app. simpl.
    do 2 f_equal. ring. }
  split; [|split; [exact Heq|]].
  - rewrite hashText_poly. apply toInt32_range.
  - unfold Telegram.isNewMessage, Telegram.markSeen. rewrite lookup_insert_eq.
    cbn [Telegram.st_id Telegram.id Telegram.text Telegram.textHash].
    rewrite Z.ltb_irrefl, Z.eqb_refl, Heq, Z.eqb_refl. reflexivity.
Qed.

(** X3: [markSeen] then [isNewMessage] on the same dialog: the message
    just marked is no longer new, the cursor is its id, and any message
    with a smaller id is never new; [markSeen] on one dialog changes
    neither the answers of [isNewMessage] nor the cursor of any other
    dialog. *)
Theorem telegram_markSeen_isNewMessage (st : Telegram.state) (d : Z) (m : Telegram.TelegramMessage) :
  Telegram.isNewMessage (Telegram.markSeen st d m) d m = false ∧
  Telegram.getLastSeenId (Telegram.markSeen st d m) d = Some (Telegram.id m) ∧
  (∀ m', (Telegram.id m' < Telegram.id m)%Z →
     Telegram.isNewMessage (Telegram.markSeen st d m) d m' = false) ∧
  (∀ d' m', d' ≠ d →
     Telegram.isNewMessage (Telegram.markSeen st d m) d' m' = Telegram.isNewMessage st d' m' ∧
     Telegram.getLastSeenId (Telegram.markSeen st d m) d' = Telegram.getLastSeenId st d').
Proof.
  unfold Telegram.isNewMessage, Telegram.getLastSeenId, Telegram.markSeen.
  rewrite !lookup_insert_eq. simpl. split; [|split; [done|split]].
  - by rewrite Z.ltb_irrefl, !Z.eqb_refl.
  - intros m' Hlt. destruct (Z.ltb_spec (Telegram.id m) (Telegram.id m')); [lia|].
    destruct (Z.eqb_spec (Telegram.id m') (Telegram.id m)); [lia|done].
  - intros d' m' Hne. rewrite !lookup_insert_ne by auto. done.
Qed.

(** X4: [processDialog] touches only its own dialog: every other
    dialog's entry is unchanged, and a stored cursor never moves
    backwards (whatever the fetch returns and whichever forwards fail). *)
Theorem telegram_processDialog_local_monotone (send : Telegram.TelegramMessage → bool) (d : Z)
    (fetched : option (list Telegram.TelegramMessage)) (st : Telegram.state) :
  (∀ d', d' ≠ d → snd (Telegram.processDialog send d fetched st) !! d' = st !! d') ∧
  (∀ e, st !! d = Some e →
     ∃ e', snd (Telegram.processDialog send d fetched st) !! d = Some e' ∧
           (Telegram.st_id e ≤ Telegram.st_id e')%Z).
Proof.
  split.
  - intros d' Hne. by apply processDialog_other.
  - intros e He. unfold Telegram.processDialog, Telegram.getLastSeenId. rewrite He. simpl.
    destruct fetched as [[|m ms]|]; simpl; try (exists e; split; [done|lia]).
    apply process_loop_cursor. exists e. split; [done|lia].
Qed.

(** X5: [pollForMessages] only processes dialogs of an allowed type
    ('user' or 'group'): a dialog id that no allowed dialog of the list
    carries gets no message forwarded and keeps its state entry; a null
    dialog list forwards nothing and changes nothing. *)
Theorem telegram_poll_only_allowed_dialogs (send : Z → Telegram.TelegramMessage → bool)
    (groups : option (list TelegramPolling.TelegramDialog))
    (fetch : Z → option (list Telegram.TelegramMessage)) (st : Telegram.state) (x : Z) :
  (∀ dlg, dlg ∈ default [] groups → TelegramPolling.allowed dlg = true →
     TelegramPolling.dialog_id dlg ≠ x) →
  snd (TelegramPolling.pollForMessages send groups fetch st) !! x = st !! x ∧
  (∀ m, (x, m) ∉ fst (TelegramPolling.pollForMessages send groups fetch st)) ∧
  TelegramPolling.pollForMessages send None fetch st = ([], st).
Proof.
  intros Hx.
  assert (Hf : ∀ dlg, dlg ∈ List.filter TelegramPolling.allowed (default [] groups) →
                 TelegramPolling.dialog_id dlg ≠ x).
  { intros dlg Hd. apply list_elem_of_In, filter_In in Hd as [Hd Ha].
    apply Hx; [by apply list_elem_of_In|done]. }
  destruct (poll_fold_other send fetch x st _ [] st Hf
              ltac:(intros m Hm; by apply elem_of_nil in Hm) eq_refl) as [H1 H2].
  unfold TelegramPolling.pollForMessages. split_and!; [exact H1|exact H2|reflexivity].
Qed.

Lemma telegram_markSeen_isNewMessage_witness :
  (3 < 5)%Z ∧
  Telegram.isNewMessage (Telegram.markSeen ∅ 1%Z (Telegram.mkMsg 5 "" [1%Z])) 1%Z
    (Telegram.mkMsg 3 "" [2%Z]) = false.
Proof.
  split; [lia|].
  apply (proj1 (proj2 (proj2 (telegram_markSeen_isNewMessage ∅ 1%Z (Telegram.mkMsg 5 "" [1%Z]))))).
  simpl. lia.
Defined.

Lemma telegram_processDialog_local_monotone_witness :
  ({[1%Z := Telegram.mkMessageState 10 "" 0]} : Telegram.state) !! 1%Z =
    Some (Telegram.mkMessageState 10 "" 0) ∧
  ∃ e', snd (Telegram.processDialog (λ _, false) 1%Z (Some [Telegram.mkMsg 4 "" [7%Z]])
               {[1%Z := Telegram.mkMessageState 10 "" 0]}) !! 1%Z = Some e' ∧
        (10 ≤ Telegram.st_id e')%Z.
Proof.
  split; [reflexivity|].
  apply (proj2 (telegram_processDialog_local_monotone (λ _, false) 1%Z
           (Some [Telegram.mkMsg 4 "" [7%Z]]) {[1%Z := Telegram.mkMessageState 10 "" 0]})
           (Telegram.mkMessageState 10 "" 0)).
  vm_compute. reflexivity.
Defined.

Lemma telegram_poll_only_allowed_dialogs_witness :
  snd (TelegramPolling.pollForMessages (λ _ _, true)
         (Some [TelegramPolling.mkDialog 1 TelegramPolling.DChannel;
                TelegramPolling.mkDialog 2 TelegramPolling.DUser])
         (λ _, Some [Telegram.mkMsg 5 "" [1%Z]]) ∅) !! 1%Z = (∅ : Telegram.state) !! 1%Z ∧
  (∀ m, (1%Z, m) ∉ fst (TelegramPolling.pollForMessages (λ _ _, true)
         (Some [TelegramPolling.mkDialog 1 TelegramPolling.DChannel;
                TelegramPolling.mkDialog 2 TelegramPolling.DUser])
         (λ _, Some [Telegram.mkMsg 5 "" [1%Z]]) ∅)) ∧
  TelegramPolling.pollForMessages (λ _ _, true) None
    (λ _, Some [Telegram.mkMsg 5 "" [1%Z]]) ∅ = ([], ∅).
Proof.
  apply (telegram_poll_only_allowed_dialogs (λ _ _, true)
           (Some [TelegramPolling.mkDialog 1 TelegramPolling.DChannel;
                  TelegramPolling.mkDialog 2 TelegramPolling.DUser])
           (λ _, Some [Telegram.mkMsg 5 "" [1%Z]]) ∅ 1%Z).
  intros dlg Hd Ha. simpl in Hd.
  apply elem_of_cons in Hd as [->|Hd]; [discriminate|].
  apply elem_of_cons in Hd as [->|Hd]; [simpl; lia|].
  by apply elem_of_nil in Hd.
Defined.

(* ================================================================== *)
(** ** SubprocessManager: the restart budget *)
(* ================================================================== *)

Section SupervisorExtraProofs.

Lemma scheduled_app (o1 o2 : list Supervisor.signal) :
  SupervisorLog.scheduled (o1 ++ o2) = SupervisorLog.scheduled o1 ++ SupervisorLog.scheduled o2.
Proof. induction o1 as [|[] o1 IH]; simpl; rewrite ?IH; done. Qed.

Lemma step_budget (s : Supervisor.state) (e : Supervisor.event) :
  Supervisor.restartAttempts s ≤ 5 →
  (Supervisor.restartAttempts (Supervisor.step s e).1 = Supervisor.restartAttempts s ∧
   SupervisorLog.scheduled (Supervisor.step s e).2 = []) ∨
  (Supervisor.restartAttempts (Supervisor.step s e).1 = S (Supervisor.restartAttempts s) ∧
   S (Supervisor.restartAttempts s) ≤ 5 ∧
   SupervisorLog.scheduled (Supervisor.step s e).2 =
     [(S (Supervisor.restartAttempts s),
       (Supervisor.restartDelay * Z.of_nat (S (Supervisor.restartAttempts s)))%Z)]).
Proof.
  intros Hle. destruct s as [p a sd ts]. cbn [Supervisor.restartAttempts] in *.
  unfold Supervisor.step, Supervisor.start, Supervisor.on_exit, Supervisor.on_timer,
    Supervisor.stop, Supervisor.on_error.
  cbn [Supervisor.process Supervisor.restartAttempts Supervisor.shuttingDown Supervisor.timers].
  destruct (Supervisor.maxRestarts <=? a);
  destruct (a <? Supervisor.maxRestarts) eqn:E;
  destruct e, p, sd, ts; cbn; try (left; split; reflexivity);
  right; apply Nat.ltb_lt in E; unfold Supervisor.maxRestarts in E;
  split_and!; first [reflexivity|lia].
Qed.

Lemma run_budget (es : list Supervisor.event) (s : Supervisor.state) :
  Supervisor.restartAttempts s ≤ 5 →
  Supervisor.restartAttempts s ≤ Supervisor.restartAttempts (Supervisor.run s es).1 ≤ 5 ∧
  SupervisorLog.scheduled (Supervisor.run s es).2 =
    (λ n, (n, (Supervisor.restartDelay * Z.of_nat n)%Z)) <$>
      seq (S (Supervisor.restartAttempts s))
          (Supervisor.restartAttempts (Supervisor.run s es).1 - Supervisor.restartAttempts s).
Proof.
  revert s. induction es as [|e es IH]; intros s Hle; simpl.
  - rewrite Nat.sub_diag. simpl. split; [lia|done].
  - pose proof (step_budget s e Hle) as Hs.
    destruct (Supervisor.step s e) as [s1 o1] eqn:E1. simpl in Hs.
    assert (Hle1 : Supervisor.restartAttempts s1 ≤ 5) by (destruct Hs as [[-> _]|(-> & ? & _)]; lia).
    destruct (IH s1 Hle1) as [Hb Hsch].
    destruct (Supervisor.run s1 es) as [s2 o2] eqn:E2. simpl in *.
    rewrite scheduled_app, Hsch.
    destruct Hs as [[Ha Ho]|(Ha & Hlt & Ho)]; rewrite Ho, Ha in *.
    + split; [lia|done].
    + split; [lia|].
      replace (Supervisor.restartAttempts s2 - Supervisor.restartAttempts s)
        with (S (Supervisor.restartAttempts s2 - S (Supervisor.restartAttempts s))) by lia.
      done.
Qed.

End SupervisorExtraProofs.

(** X6: the restart budget of [SubprocessManager] is for its whole
    life: [restartAttempts] is never reset (not by a successful
    restart, nor by [stop()] and a later [start()]). Over any sequence
    of starts, exits, spawn errors, timer firings and stops, the
    restarts scheduled are numbered 1, 2, ..., k in order with k at most
    5 and k the final [restartAttempts], attempt n waiting n x 1000 ms. *)
Theorem supervisor_restart_budget_lifetime (es : list Supervisor.event) :
  Supervisor.restartAttempts (Supervisor.run Supervisor.init es).1 ≤ Supervisor.maxRestarts ∧
  SupervisorLog.scheduled (Supervisor.run Supervisor.init es).2 =
    (λ n, (n, (1000 * Z.of_nat n)%Z)) <$>
      seq 1 (Supervisor.restartAttempts (Supervisor.run Supervisor.init es).1).
Proof.
  destruct (run_budget es Supervisor.init ltac:(simpl; lia)) as [Hb Hs].
  unfold Supervisor.maxRestarts. split; [lia|].
  rewrite Hs. simpl. rewrite Nat.sub_0_r. done.
Qed.

(* ================================================================== *)
(** ** BitwardenCli *)
(* ================================================================== *)

Section BitwardenProofs.
Import Bitwarden.

Lemma exec_env_session_none (penv : env) (dir : string) (oe : option env) :
  (∀ m, oe = Some m → m !! "BW_SESSION" = None) →
  exec_env penv dir (Some (mkExecOptions None oe)) !! "BW_SESSION" = penv !! "BW_SESSION".
Proof.
  intros Hm. unfold exec_env. cbn [mbind option_bind opt_session opt_env default]. rewrite lookup_union.
  rewrite !lookup_insert_ne by done.
  destruct oe as [m|]; simpl; [rewrite (Hm m eq_refl)|]; by destruct (penv !! "BW_SESSION").
Qed.

Lemma exec_env_fixed (penv : env) (dir : string) (o : option ExecOptions) (k : string) :
  k ≠ "BW_SESSION" →
  (∀ m, o ≫= opt_env = Some m → m !! k = None) →
  exec_env penv dir o !! k =
    (<["BW_NOINTERACTION" := "true"]> (<["BITWARDENCLI_APPDATA_DIR" := dir]> penv)) !! k.
Proof.
  intros Hk Hm. unfold exec_env.
  assert (Hu : (default ∅ (o ≫= opt_env) ∪
      <["BW_NOINTERACTION" := "true"]> (<["BITWARDENCLI_APPDATA_DIR" := dir]> penv) : env) !! k =
      (<["BW_NOINTERACTION" := "true"]> (<["BITWARDENCLI_APPDATA_DIR" := dir]> penv)) !! k).
  { rewrite lookup_union. destruct (o ≫= opt_env) as [m|]; simpl.
    - rewrite (Hm m eq_refl). by destruct (_ !! k).
    - rewrite lookup_empty. by destruct (_ !! k). }
  destruct (o ≫= opt_session) as [s|]; [|done].
  destruct (Session.truthy (Some s)); [|done].
  rewrite lookup_insert_ne by congruence. done.
Qed.

Lemma exec_env_with_session (penv : env) (dir s : string) :
  exec_env penv dir (Some (mkExecOptions (Some s) None)) !! "BW_SESSION" =
    if bool_decide (s = "") then penv !! "BW_SESSION" else Some s.
Proof.
  unfold exec_env. cbn [mbind option_bind opt_session opt_env default].
  assert (Ht : Session.truthy (Some s) = negb (bool_decide (s = ""))).
  { unfold Session.truthy. case_bool_decide; destruct (String.eqb_spec s ""); done. }
  rewrite Ht. case_bool_decide; cbn [negb].
  - rewrite lookup_union, !lookup_insert_ne by done.
    by destruct (penv !! "BW_SESSION").
  - by rewrite lookup_insert_eq.
Qed.

(** Parsing the unlock output. *)

Lemma strip_prefix_spec (p s r : list ascii) :
  strip_prefix p s = Some r → s = p ++ r.
Proof.
  revert s. induction p as [|c p IH]; intros s; cbn [strip_prefix span_nonquote app].
  - by intros [= ->].
  - destruct s as [|d s]; [discriminate|].
    destruct (Ascii.eqb_spec c d) as [->|]; [|discriminate].
    intros H. by rewrite (IH s H).
Qed.

Lemma strip_prefix_app (p r : list ascii) : strip_prefix p (p ++ r) = Some r.
Proof. induction p as [|c p IH]; cbn [strip_prefix span_nonquote app]; [done|]. by rewrite Ascii.eqb_refl. Qed.

Lemma span_nonquote_app (t r : list ascii) :
  quote ∉ t → span_nonquote (t ++ quote :: r) = (t, quote :: r).
Proof.
  induction t as [|c t IH]; intros Hq; cbn [strip_prefix span_nonquote app].
  - by rewrite Ascii.eqb_refl.
  - destruct (Ascii.eqb_spec c quote) as [->|Hc].
    + exfalso. apply Hq. apply elem_of_cons. by left.
    + rewrite IH; [done|]. intros Ht. apply Hq. apply elem_of_cons. by right.
Qed.

Lemma span_nonquote_spec (s a b : list ascii) :
  span_nonquote s = (a, b) →
  s = a ++ b ∧ (quote ∉ a) ∧ (∀ c b', b = c :: b' → c = quote).
Proof.
  revert a b. induction s as [|c s IH]; intros a b; cbn [strip_prefix span_nonquote app].
  - intros [= <- <-]. split_and!; [done| |done]. apply not_elem_of_nil.
  - destruct (Ascii.eqb_spec c quote) as [->|Hc].
    + intros [= <- <-]. split_and!; [done|apply not_elem_of_nil|by intros ? ? [= ->]].
    + destruct (span_nonquote s) as [a' b'] eqn:E. intros [= <- <-].
      destruct (IH a' b' eq_refl) as (-> & Ha & Hb). split_and!; [done| |done].
      intros Hin. apply elem_of_cons in Hin as [Hin|Hin]; [congruence|done].
Qed.

Lemma first_quote_unique (a b x y : list ascii) :
  quote ∉ a → quote ∉ b → a ++ quote :: x = b ++ quote :: y → a = b ∧ x = y.
Proof.
  revert b. induction a as [|c a IH]; intros b Ha Hb; destruct b as [|d b]; cbn [strip_prefix span_nonquote app].
  - by intros [= ->].
  - intros [= Hd _]. exfalso. apply Hb. rewrite <- Hd. apply elem_of_cons. by left.
  - intros [= Hc _]. exfalso. apply Ha. rewrite Hc. apply elem_of_cons. by left.
  - intros [= -> Hr]. destruct (IH b) as [-> ->]; [| |done|done].
    + intros Hin; apply Ha, elem_of_cons; by right.
    + intros Hin; apply Hb, elem_of_cons; by right.
Qed.

Lemma quote_not_in_key_body : quote ∉ String.list_ascii_of_string "BW_SESSION=".
Proof. vm_compute. intros Hin. repeat (apply elem_of_cons in Hin as [Hin|Hin]; [discriminate|]).
  by apply elem_of_nil in Hin. Qed.

Lemma match_at_key_not_first (u rest : list ascii) :
  u ≠ [] → quote ∉ u → match_at (u ++ session_key ++ rest) = None.
Proof.
  intros Hu Hq. unfold match_at.
  destruct (strip_prefix session_key (u ++ session_key ++ rest)) as [r|] eqn:E; [|done].
  exfalso. apply strip_prefix_spec in E. unfold session_key in E.
  rewrite <- !app_assoc in E. cbn [strip_prefix span_nonquote app] in E. rewrite app_assoc in E.
  apply first_quote_unique in E as [E _].
  - apply (f_equal List.length) in E. rewrite length_app in E. destruct u; [done|simpl in E; lia].
  - intros Hin. apply elem_of_app in Hin as [Hin|Hin]; [done|by apply quote_not_in_key_body].
  - apply quote_not_in_key_body.
Qed.

Lemma session_match_spec (s t : list ascii) :
  session_match s = Some t →
  t ≠ [] ∧ (quote ∉ t) ∧ ∃ pre post, s = pre ++ session_key ++ t ++ quote :: post.
Proof.
  induction s as [|c s IH].
  - intros H. vm_compute in H. discriminate.
  - cbn [session_match]. destruct (match_at (c :: s)) as [t'|] eqn:E.
    + intros [= <-]. unfold match_at in E.
      destruct (strip_prefix session_key (c :: s)) as [r|] eqn:Es; [|discriminate].
      apply strip_prefix_spec in Es.
      destruct (span_nonquote r) as [a b] eqn:Er.
      destruct (span_nonquote_spec r a b Er) as (-> & Ha & Hb).
      destruct a as [|x a]; [discriminate|]. destruct b as [|y b]; [discriminate|].
      injection E as <-. rewrite (Hb y b eq_refl) in Es.
      split_and!; [done|done|]. exists [], b. done.
    + intros H. destruct (IH H) as (Ht & Hq & pre & post & ->).
      split_and!; [done|done|]. by exists (c :: pre), post.
Qed.

Lemma match_at_key (tok post : list ascii) :
  tok ≠ [] → quote ∉ tok → match_at (session_key ++ tok ++ quote :: post) = Some tok.
Proof.
  intros Hne Hq. unfold match_at. rewrite strip_prefix_app, span_nonquote_app by done.
  by destruct tok.
Qed.

Lemma session_match_hit (s t : list ascii) : match_at s = Some t → session_match s = Some t.
Proof. destruct s; cbn [session_match]; intros ->; done. Qed.

Lemma session_match_miss (c : ascii) (s : list ascii) :
  match_at (c :: s) = None → session_match (c :: s) = session_match s.
Proof. cbn [session_match]. by intros ->. Qed.

Lemma session_match_first (pre tok post : list ascii) :
  quote ∉ pre → tok ≠ [] → quote ∉ tok →
  session_match (pre ++ session_key ++ tok ++ quote :: post) = Some tok.
Proof.
  intros Hp Hne Hq. induction pre as [|c pre IH].
  - by apply session_match_hit, match_at_key.
  - cbn [app]. rewrite session_match_miss.
    + apply IH. intros Hin. apply Hp, elem_of_cons. by right.
    + apply (match_at_key_not_first (c :: pre)); done.
Qed.

Lemma truthy_nonempty (t : string) : Session.truthy (Some t) = true ↔ t ≠ "".
Proof. unfold Session.truthy. destruct (String.eqb_spec t ""); split; done. Qed.

Lemma string_of_list_ascii_nonempty (l : list ascii) :
  l ≠ [] → String.string_of_list_ascii l ≠ "".
Proof. destruct l; done. Qed.

Lemma call_env_session (penv : env) (cli : BitwardenCli) (c : call) :
  call_env penv cli c !! "BW_SESSION" =
    match call_session c with
    | Some s => if bool_decide (s = "") then penv !! "BW_SESSION" else Some s
    | None => penv !! "BW_SESSION"
    end.
Proof.
  unfold call_env. destruct c; simpl; try apply exec_env_with_session.
  - apply exec_env_session_none. intros m [= <-]. rewrite !lookup_insert_ne by done.
    apply lookup_empty.
  - apply exec_env_session_none. intros m [= <-]. rewrite !lookup_insert_ne by done.
    apply lookup_empty.
  - unfold exec_env. cbn [mbind option_bind opt_session opt_env default].
    rewrite lookup_union, !lookup_insert_ne by done.
    by destruct (penv !! "BW_SESSION").
  - destruct session as [s|]; [apply exec_env_with_session|].
    unfold exec_env. cbn [mbind option_bind opt_session opt_env default].
    rewrite lookup_union, !lookup_insert_ne by done.
    by destruct (penv !! "BW_SESSION").
Qed.

Lemma session_tokens_nonempty_run (m : Session.manager) (ops : list Session.op) :
  (∀ t, Session.session m = Some t → t ≠ "") →
  ∀ t, Session.session (Session.run m ops) = Some t → t ≠ "".
Proof.
  unfold Session.run. revert m. induction ops as [|o ops IH]; intros m Hm; simpl; [done|].
  apply IH. destruct o as [c| |c]; simpl; [|done|intros t [=]].
  unfold Session.initialize, Session.init_login, Session.init_unlock, Session.init_sync.
  destruct (Session.login_ok c); [|done].
  destruct (Session.cli_unlock c) as [t|] eqn:Hu; [|done].
  pose proof (cli_unlock_nonempty _ _ Hu).
  destruct (Session.sync_ok c); intros t' [= <-]; done.
Qed.

End BitwardenProofs.

(** X7: every [bw] command the wrapper runs, whatever [process.env]
    holds, has [BW_NOINTERACTION] set to 'true' and
    [BITWARDENCLI_APPDATA_DIR] set to the wrapper's private directory;
    its [BW_SESSION] is the method's session argument when that is a
    non-empty string, and otherwise (no session parameter, an
    undefined or an empty session) is inherited from [process.env]. *)
Theorem bw_command_env (penv : Bitwarden.env) (cli : Bitwarden.BitwardenCli) (c : Bitwarden.call) :
  Bitwarden.call_env penv cli c !! "BW_NOINTERACTION" = Some "true" ∧
  Bitwarden.call_env penv cli c !! "BITWARDENCLI_APPDATA_DIR" = Some (Bitwarden.appDataDir cli) ∧
  Bitwarden.call_env penv cli c !! "BW_SESSION" =
    match Bitwarden.call_session c with
    | Some s => if bool_decide (s = "") then penv !! "BW_SESSION" else Some s
    | None => penv !! "BW_SESSION"
    end.
Proof.
  unfold Bitwarden.call_env.
  assert (Hfix : ∀ k, k ≠ "BW_SESSION" →
    (∀ m, Bitwarden.cmd_options (Bitwarden.command cli c) ≫= Bitwarden.opt_env = Some m →
          m !! k = None) →
    Bitwarden.exec_env penv (Bitwarden.appDataDir cli) (Bitwarden.cmd_options (Bitwarden.command cli c)) !! k =
    (<["BW_NOINTERACTION" := "true"]> (<["BITWARDENCLI_APPDATA_DIR" := Bitwarden.appDataDir cli]> penv)) !! k).
  { intros k Hk Hm. by apply exec_env_fixed. }
  split_and!.
  - rewrite Hfix by (done || (destruct c; simpl; intros m [= <-];
                               rewrite ?lookup_insert_ne by done; apply lookup_empty)).
    by rewrite lookup_insert_eq.
  - rewrite Hfix by (done || (destruct c; simpl; intros m [= <-];
                               rewrite ?lookup_insert_ne by done; apply lookup_empty)).
    rewrite lookup_insert_ne by done. by rewrite lookup_insert_eq.
  - apply call_env_session.
Qed.

(** X8: the credentials never appear on the command line: the
    arguments of [login] and [unlock] are the same whatever the client
    id, client secret and password; the [bw] process receives them as
    [BW_CLIENTID], [BW_CLIENTSECRET] and [BW_UNLOCK_PASSWD], which
    override any value of [process.env]. *)
Theorem bw_credentials_only_in_env (penv : Bitwarden.env) (cli : Bitwarden.BitwardenCli)
    (i s i' s' p p' : string) :
  Bitwarden.cmd_args (Bitwarden.command cli (Bitwarden.CLogin i s)) =
    Bitwarden.cmd_args (Bitwarden.command cli (Bitwarden.CLogin i' s')) ∧
  Bitwarden.cmd_args (Bitwarden.command cli (Bitwarden.CUnlock p)) =
    Bitwarden.cmd_args (Bitwarden.command cli (Bitwarden.CUnlock p')) ∧
  Bitwarden.call_env penv cli (Bitwarden.CLogin i s) !! "BW_CLIENTID" = Some i ∧
  Bitwarden.call_env penv cli (Bitwarden.CLogin i s) !! "BW_CLIENTSECRET" = Some s ∧
  Bitwarden.call_env penv cli (Bitwarden.CUnlock p) !! "BW_UNLOCK_PASSWD" = Some p.
Proof.
  split_and!; try reflexivity; unfold Bitwarden.call_env, Bitwarden.exec_env;
    cbn [Bitwarden.command Bitwarden.login Bitwarden.unlock_command Bitwarden.cmd_options mbind option_bind Bitwarden.opt_session Bitwarden.opt_env default];
    apply lookup_union_Some_l; reflexivity.
Qed.

(** X9: [unlock] returns the session key of the unlock output: when the
    output is any text without a double quote, then BW_SESSION=, a
    double quote, a non-empty key without a double quote and a double
    quote (then anything), the result is that key; a later assignment
    never wins over the first. *)
Theorem bw_unlock_parses_session (pre key post : list ascii) :
  Bitwarden.quote ∉ pre → key ≠ [] → Bitwarden.quote ∉ key →
  Bitwarden.unlock (String.string_of_list_ascii
    (pre ++ Bitwarden.session_key ++ key ++ Bitwarden.quote :: post)) =
  Some (String.string_of_list_ascii key).
Proof.
  intros Hp Hne Hq. unfold Bitwarden.unlock.
  rewrite String.list_ascii_of_string_of_list_ascii, session_match_first by done.
  destruct (Session.truthy (Some (String.string_of_list_ascii key))) eqn:E; [done|].
  exfalso. apply (string_of_list_ascii_nonempty key Hne).
  destruct (String.string_of_list_ascii key); [done|discriminate].
Qed.

(** X10: a session key returned by [unlock] is a non-empty string
    without a double quote, and the unlock output contains it as
    BW_SESSION=, a double quote, the key and a double quote. *)
Theorem bw_unlock_result_sound (stdout t : string) :
  Bitwarden.unlock stdout = Some t →
  t ≠ "" ∧ (Bitwarden.quote ∉ String.list_ascii_of_string t) ∧
  ∃ pre post, String.list_ascii_of_string stdout =
    pre ++ Bitwarden.session_key ++ String.list_ascii_of_string t ++ Bitwarden.quote :: post.
Proof.
  unfold Bitwarden.unlock.
  destruct (Bitwarden.session_match (String.list_ascii_of_string stdout)) as [l|] eqn:E;
    [|discriminate].
  destruct (Session.truthy (Some (String.string_of_list_ascii l))) eqn:Et; [|discriminate].
  intros [= <-]. apply session_match_spec in E as (Hne & Hq & pre & post & Hs).
  rewrite String.list_ascii_of_string_of_list_ascii.
  split_and!; [by apply truthy_nonempty|done|by exists pre, post].
Qed.

(** X11: [generate] ignores the options of the other mode: with
    [passphrase] true the arguments depend only on [words] and
    [separator] (not on [length] or the character-class flags); with
    [passphrase] not true they depend only on [length] and the four
    flags (not on [words] or [separator]). *)
Theorem bw_generate_mode_args (o o' : Bitwarden.GenerateOptions) :
  (Bitwarden.passphrase o = Some true → Bitwarden.passphrase o' = Some true →
   Bitwarden.words o = Bitwarden.words o' → Bitwarden.separator o = Bitwarden.separator o' →
   Bitwarden.generate_args (Some o) = Bitwarden.generate_args (Some o')) ∧
  (Bitwarden.passphrase o ≠ Some true → Bitwarden.passphrase o' ≠ Some true →
   Bitwarden.length o = Bitwarden.length o' → Bitwarden.uppercase o = Bitwarden.uppercase o' →
   Bitwarden.lowercase o = Bitwarden.lowercase o' → Bitwarden.number o = Bitwarden.number o' →
   Bitwarden.special o = Bitwarden.special o' →
   Bitwarden.generate_args (Some o) = Bitwarden.generate_args (Some o')).
Proof.
  unfold Bitwarden.generate_args. cbn [mbind option_bind]. split.
  - intros Hp Hp' Hw Hs. rewrite Hp, Hp', Hw, Hs. by rewrite !bool_decide_true by done.
  - intros Hp Hp' Hl Hu Hlo Hn Hs.
    rewrite (bool_decide_eq_false_2 _ Hp), (bool_decide_eq_false_2 _ Hp').
    by rewrite Hl, Hu, Hlo, Hn, Hs.
Qed.

(** X12: [listItems] always lists the items of the configured
    organization and collection (its arguments start with list items
    --organizationid ORG --collectionid COL); an empty [search] or
    [folderId] is dropped, so it gives the same command as an absent
    one. *)
Theorem bw_listItems_scoped (cli : Bitwarden.BitwardenCli) (session : string)
    (o : option Bitwarden.ListItemsOptions) (sr f : option string) :
  (∃ rest, Bitwarden.cmd_args (Bitwarden.listItems cli session o) =
     ["list"; "items"; "--organizationid"; Bitwarden.organizationId cli;
      "--collectionid"; Bitwarden.collectionId cli] ++ rest) ∧
  Bitwarden.listItems cli session (Some (Bitwarden.mkListItemsOptions (Some "") f)) =
    Bitwarden.listItems cli session (Some (Bitwarden.mkListItemsOptions None f)) ∧
  Bitwarden.listItems cli session (Some (Bitwarden.mkListItemsOptions sr (Some ""))) =
    Bitwarden.listItems cli session (Some (Bitwarden.mkListItemsOptions sr None)).
Proof.
  split_and!; [|reflexivity|].
  - unfold Bitwarden.listItems. cbn [Bitwarden.cmd_args].
    destruct (o ≫= Bitwarden.search) as [x|]; [destruct (Session.truthy (Some x))|];
    destruct (o ≫= Bitwarden.folderId) as [y|]; try destruct (Session.truthy (Some y));
    rewrite <- ?app_assoc; eexists; reflexivity.
  - unfold Bitwarden.listItems. cbn [mbind option_bind Bitwarden.search Bitwarden.folderId].
    destruct sr as [x|]; [destruct (Session.truthy (Some x))|]; reflexivity.
Qed.

(** X13: each folder and misc tool (list_folders, get_folder,
    sync_vault, generate_password, get_vault_status) runs a [bw]
    command exactly when [getSession()] returns a token, and that
    command's [BW_SESSION] is that token, whatever [process.env] holds;
    when [getSession()] throws, no command runs. *)
Theorem bw_tools_use_current_session (penv : Bitwarden.env) (cli : Bitwarden.BitwardenCli)
    (m : Session.manager) (t : BitwardenTools.tool) :
  (BitwardenTools.tool_call m t = None ↔ Session.getSession m = None) ∧
  (∀ c, BitwardenTools.tool_call m t = Some c →
     ∃ tok, Session.getSession m = Some tok ∧
            Bitwarden.call_env penv cli c !! "BW_SESSION" = Some tok).
Proof.
  unfold BitwardenTools.tool_call. destruct (Session.getSession m) as [tok|] eqn:E.
  - split; [done|]. intros c [= <-]. exists tok. split; [done|].
    apply getSession_spec in E as (_ & Hne & _).
    rewrite call_env_session. destruct t; simpl; by rewrite bool_decide_false.
  - split; [done|]. by intros c.
Qed.

(** X14: after any sequence of [initialize()], [getSession()] and
    [shutdown()] calls from a fresh manager, whatever each [bw] call
    returns, [isUnlocked] is true exactly when [getSession()] returns a
    token: a held token is never the empty string. *)
Theorem bw_isUnlocked_iff_getSession (ops : list Session.op) :
  BitwardenTools.isUnlocked (Session.run Session.init ops) =
    bool_decide (Session.getSession (Session.run Session.init ops) ≠ None).
Proof.
  pose proof (session_tokens_nonempty_run Session.init ops ltac:(by intros t [=])) as Hne.
  revert Hne. generalize (Session.run Session.init ops) as m. intros m Hne.
  unfold BitwardenTools.isUnlocked, Session.getSession.
  destruct (Session.session m) as [t|] eqn:Es; simpl.
  - pose proof (Hne t eq_refl) as Ht. apply not_eq_sym in Ht.
    destruct (String.eqb_spec t ""); [congruence|]. simpl.
    destruct (Session.sessionState m); simpl; reflexivity.
  - destruct (Session.sessionState m); simpl; reflexivity.
Qed.

(* ================================================================== *)
(** ** PollingManager: startAll and stopAll *)
(* ================================================================== *)

Section PollingAllProofs.

Lemma startPoller_lookup (n : string) (m m' : Polling.manager) (eff : list Polling.effect) :
  Polling.startPoller n m = Some (m', eff) →
  ∃ st, Polling.pollers m !! n = Some st ∧
    ((Polling.running st = true ∧ m' = m) ∨
     (Polling.running st = false ∧ ∃ t, Polling.pollers m' =
        <[n := Polling.mkPollerState (Polling.config st) (Some t) true (Polling.lastRun st)
                 (Polling.lastError st) (Polling.runCount st)]> (Polling.pollers m))).
Proof.
  unfold Polling.startPoller. destruct (Polling.pollers m !! n) as [st|] eqn:Hn; [|done].
  intros Heq. exists st. split; [done|].
  destruct (Polling.running st) eqn:Hr; [left; by injection Heq as <- _|right; split; [done|]].
  destruct (Polling.immediate (Polling.config st)); simpl in Heq;
    injection Heq as <- _; simpl; eexists; by rewrite insert_insert_eq.
Qed.

Lemma stopPoller_lookup (n : string) (m m' : Polling.manager) (eff : list Polling.effect) :
  Polling.stopPoller n m = Some (m', eff) →
  ∃ st, Polling.pollers m !! n = Some st ∧
    Polling.pollers m' =
      <[n := Polling.mkPollerState (Polling.config st) None false (Polling.lastRun st)
               (Polling.lastError st) (Polling.runCount st)]> (Polling.pollers m).
Proof.
  unfold Polling.stopPoller. destruct (Polling.pollers m !! n) as [st|] eqn:Hn; [|done].
  intros Heq. exists st. split; [done|].
  destruct (Polling.timer st); injection Heq as <- _; done.
Qed.

Lemma stopPoller_exists (n : string) (m : Polling.manager) :
  is_Some (Polling.pollers m !! n) → ∃ m' eff, Polling.stopPoller n m = Some (m', eff).
Proof.
  intros [st Hst]. unfold Polling.stopPoller. rewrite Hst.
  destruct (Polling.timer st); eauto.
Qed.

Lemma startPoller_exists (n : string) (m : Polling.manager) :
  is_Some (Polling.pollers m !! n) → ∃ m' eff, Polling.startPoller n m = Some (m', eff).
Proof.
  intros [st Hst]. unfold Polling.startPoller. rewrite Hst.
  destruct (Polling.running st); [eauto|].
  destruct (Polling.immediate (Polling.config st)); simpl; eauto.
Qed.

Lemma stop_each_spec (ks : list string) (m : Polling.manager) :
  Polling.timers_consistent m →
  (∀ k, k ∈ ks → is_Some (Polling.pollers m !! k)) →
  ∃ m' eff, PollingAll.stopAll ks m = Some (m', eff) ∧
    Polling.timers_consistent m' ∧
    (∀ p, Polling.stats p m' = Polling.stats p m) ∧
    (∀ p, p ∉ ks → Polling.pollers m' !! p = Polling.pollers m !! p) ∧
    (∀ p, p ∈ ks → ∃ st, Polling.pollers m' !! p = Some st ∧
                         Polling.running st = false ∧ Polling.timer st = None).
Proof.
  unfold PollingAll.stopAll. revert m.
  induction ks as [|k ks IH]; intros m Hinv Hks; simpl.
  - exists m, []. split_and!; try done. intros p Hp. by apply elem_of_nil in Hp.
  - destruct (stopPoller_exists k m) as (m1 & e1 & Hs1); [apply Hks, elem_of_cons; by left|].
    rewrite Hs1. pose proof (inv_stop _ _ _ _ Hs1 Hinv) as Hinv1.
    destruct (stopPoller_lookup _ _ _ _ Hs1) as (st & Hst & Hp1).
    assert (Hk1 : ∀ p, p ≠ k → Polling.pollers m1 !! p = Polling.pollers m !! p).
    { intros p Hp. rewrite Hp1, lookup_insert_ne; done. }
    assert (Hstats1 : ∀ p, Polling.stats p m1 = Polling.stats p m).
    { intros p. unfold Polling.stats. rewrite Hp1, lookup_insert.
      case_decide; [subst; by rewrite Hst|done]. }
    destruct (IH m1 Hinv1) as (m2 & e2 & Heach & Hinv2 & Hstats2 & Hout2 & Hin2).
    { intros q Hq. destruct (decide (q = k)) as [->|Hne].
      - rewrite Hp1, lookup_insert_eq. by eexists.
      - rewrite Hk1 by done. apply Hks, elem_of_cons. by right. }
    rewrite Heach. exists m2, (e1 ++ e2). split_and!; [done|done| | |].
    + intros p. by rewrite Hstats2, Hstats1.
    + intros p Hp. rewrite Hout2, Hk1; [done| |].
      * intros ->. apply Hp, elem_of_cons. by left.
      * intros Hin. apply Hp, elem_of_cons. by right.
    + intros p Hp. destruct (decide (p ∈ ks)) as [Hin|Hnin]; [by apply Hin2|].
      apply elem_of_cons in Hp as [->|Hp]; [|done].
      rewrite Hout2, Hp1, lookup_insert_eq by done. by eexists.
Qed.

Lemma start_each_spec (ks : list string) (m : Polling.manager) :
  Polling.timers_consistent m →
  (∀ k, k ∈ ks → is_Some (Polling.pollers m !! k)) →
  ∃ m' eff, PollingAll.startAll ks m = Some (m', eff) ∧
    Polling.timers_consistent m' ∧
    (∀ p, Polling.stats p m' = Polling.stats p m) ∧
    (∀ p, p ∉ ks → Polling.pollers m' !! p = Polling.pollers m !! p) ∧
    (∀ p, p ∈ ks → ∃ st, Polling.pollers m' !! p = Some st ∧ Polling.running st = true) ∧
    (∀ p st t, Polling.pollers m !! p = Some st → Polling.timer st = Some t →
       ∃ st', Polling.pollers m' !! p = Some st' ∧ Polling.timer st' = Some t).
Proof.
  unfold PollingAll.startAll. revert m.
  induction ks as [|k ks IH]; intros m Hinv Hks; simpl.
  - exists m, []. split_and!; try done; [intros p Hp; by apply elem_of_nil in Hp|eauto].
  - destruct (startPoller_exists k m) as (m1 & e1 & Hs1); [apply Hks, elem_of_cons; by left|].
    rewrite Hs1. pose proof (inv_start _ _ _ _ Hs1 Hinv) as Hinv1.
    destruct (startPoller_lookup _ _ _ _ Hs1) as (st & Hst & Hcase).
    assert (Hk1 : ∀ p, p ≠ k → Polling.pollers m1 !! p = Polling.pollers m !! p).
    { intros p Hp. destruct Hcase as [[_ ->]|[_ [t Hp1]]]; [done|].
      rewrite Hp1, lookup_insert_ne; done. }
    assert (Hrun1 : ∃ st1, Polling.pollers m1 !! k = Some st1 ∧ Polling.running st1 = true).
    { destruct Hcase as [[Hr ->]|[_ [t Hp1]]]; [by exists st|].
      rewrite Hp1, lookup_insert_eq. by eexists. }
    assert (Hstats1 : ∀ p, Polling.stats p m1 = Polling.stats p m).
    { intros p. destruct Hcase as [[_ ->]|[_ [t Hp1]]]; [done|].
      unfold Polling.stats. rewrite Hp1, lookup_insert.
      case_decide; [subst; by rewrite Hst|done]. }
    assert (Htimer1 : ∀ p st0 t, Polling.pollers m !! p = Some st0 → Polling.timer st0 = Some t →
              ∃ st', Polling.pollers m1 !! p = Some st' ∧ Polling.timer st' = Some t).
    { intros p st0 t Hp Ht. destruct Hcase as [[_ ->]|[Hr [t' Hp1]]]; [eauto|].
      destruct (decide (p = k)) as [->|Hne].
      - exfalso. rewrite Hst in Hp. injection Hp as <-.
        destruct Hinv as (H1 & _). destruct (H1 k st Hst) as [[_ Hx] _].
        rewrite Hr in Hx. assert (false = true) as Hf by (apply Hx; by eexists). done.
      - exists st0. rewrite Hp1, lookup_insert_ne; done. }
    destruct (IH m1 Hinv1) as (m2 & e2 & Heach & Hinv2 & Hstats2 & Hout2 & Hin2 & Htimer2).
    { intros q Hq. destruct (decide (q = k)) as [->|Hne].
      - destruct Hrun1 as (st1 & Hst1 & _). by rewrite Hst1.
      - rewrite Hk1 by done. apply Hks, elem_of_cons. by right. }
    rewrite Heach. exists m2, (e1 ++ e2). split_and!; [done|done| | | |].
    + intros p. by rewrite Hstats2, Hstats1.
    + intros p Hp. rewrite Hout2, Hk1; [done| |].
      * intros ->. apply Hp, elem_of_cons. by left.
      * intros Hin. apply Hp, elem_of_cons. by right.
    + intros p Hp. destruct (decide (p ∈ ks)) as [Hin|Hnin]; [by apply Hin2|].
      apply elem_of_cons in Hp as [->|Hp]; [|done].
      rewrite Hout2 by done. exact Hrun1.
    + intros p st0 t Hp Ht. destruct (Htimer1 p st0 t Hp Ht) as (st' & Hst' & Ht').
      by apply (Htimer2 p st').
Qed.

Lemma keys_spec (g : gmap string Polling.PollerState) (p : string) :
  is_Some (g !! p) ↔ p ∈ (map_to_list g).*1.
Proof.
  split.
  - intros [x Hx]. apply list_elem_of_fmap. exists (p, x). split; [done|].
    by apply elem_of_map_to_list.
  - intros Hp. apply list_elem_of_fmap in Hp as ([q x] & -> & Hq).
    apply elem_of_map_to_list in Hq. by exists x.
Qed.

End PollingAllProofs.

(** X15: [stopAll()] on a manager whose pollers and interval timers are
    consistent, looping over the registered names, throws for none of
    them, leaves no active interval timer and every poller stopped with
    no timer, and keeps every poller's [lastRun], [lastError] and
    [runCount]. *)
Theorem polling_stopAll_clears (ks : list string) (m : Polling.manager) :
  Polling.timers_consistent m →
  (∀ p, is_Some (Polling.pollers m !! p) ↔ p ∈ ks) →
  ∃ m' eff, PollingAll.stopAll ks m = Some (m', eff) ∧
    Polling.intervals m' = ∅ ∧
    (∀ p st, Polling.pollers m' !! p = Some st →
       Polling.running st = false ∧ Polling.timer st = None) ∧
    (∀ p, Polling.stats p m' = Polling.stats p m) ∧
    Polling.timers_consistent m'.
Proof.
  intros Hinv Hks.
  destruct (stop_each_spec ks m Hinv) as (m' & eff & Hs & Hinv' & Hstats & Hout & Hin);
    [intros k Hk; by apply Hks|].
  assert (Hstop : ∀ p st, Polling.pollers m' !! p = Some st →
            Polling.running st = false ∧ Polling.timer st = None).
  { intros p st Hp. destruct (decide (p ∈ ks)) as [Hk|Hk].
    - destruct (Hin p Hk) as (st' & Hst' & Hr & Ht). rewrite Hst' in Hp. by injection Hp as <-.
    - exfalso. apply Hk, Hks. rewrite <- Hout by done. by eexists. }
  exists m', eff. split_and!; [done| |done|done|done].
  apply map_empty. intros t. destruct (Polling.intervals m' !! t) as [p|] eqn:Ht; [|done].
  destruct Hinv' as (_ & H2 & _). destruct (H2 t p Ht) as (st & Hst & Htp).
  destruct (Hstop p st Hst) as [_ Hn]. congruence.
Qed.

(** X16: [startAll()] on a manager whose pollers and interval timers are
    consistent, looping over the registered names, throws for none of
    them and leaves every poller running with exactly one active
    interval timer; a poller that was already running keeps the timer it
    had (no second timer), and no poller's [lastRun], [lastError] or
    [runCount] changes. *)
Theorem polling_startAll_all_running (ks : list string) (m : Polling.manager) :
  Polling.timers_consistent m →
  (∀ p, is_Some (Polling.pollers m !! p) ↔ p ∈ ks) →
  ∃ m' eff, PollingAll.startAll ks m = Some (m', eff) ∧
    Polling.timers_consistent m' ∧
    (∀ p st, Polling.pollers m' !! p = Some st →
       Polling.running st = true ∧ ∃ t, Polling.timer st = Some t ∧
         Polling.intervals m' !! t = Some p) ∧
    (∀ p st t, Polling.pollers m !! p = Some st → Polling.timer st = Some t →
       ∃ st', Polling.pollers m' !! p = Some st' ∧ Polling.timer st' = Some t) ∧
    (∀ p, Polling.stats p m' = Polling.stats p m).
Proof.
  intros Hinv Hks.
  destruct (start_each_spec ks m Hinv) as (m' & eff & Hs & Hinv' & Hstats & Hout & Hin & Hkeep);
    [intros k Hk; by apply Hks|].
  exists m', eff. split_and!; [done|done| |done|done].
  intros p st Hp. destruct (decide (p ∈ ks)) as [Hk|Hk].
  - destruct (Hin p Hk) as (st' & Hst' & Hr). rewrite Hst' in Hp. injection Hp as <-.
    split; [done|]. destruct Hinv' as (H1 & _). destruct (H1 p st' Hst') as [[Hx _] Ht].
    destruct (Hx Hr) as [t Htt]. exists t. split; [done|]. by apply Ht.
  - exfalso. apply Hk, Hks. rewrite <- Hout by done. by eexists.
Qed.

(* ================================================================== *)
(** ** Moltbook MCP tools *)
(* ================================================================== *)

Section MoltbookToolsProofs.

Lemma executeToolCall_none {V : Type} (n : string) (args : gmap string V) :
  MoltbookTools.executeToolCall n args = None ↔
  existsb (String.eqb n) (MoltbookTools.tool_name <$> MoltbookTools.MOLTBOOK_TOOLS) = false.
Proof.
  unfold MoltbookTools.executeToolCall. cbn [fmap list_fmap existsb MoltbookTools.MOLTBOOK_TOOLS MoltbookTools.tool_name].
  repeat match goal with
         | |- context [String.eqb n ?s] =>
             destruct (String.eqb n s); cbn [orb]; [split; intros Hx; discriminate|]
         end.
  done.
Qed.

Lemma existsb_eqb_elem (n : string) (l : list string) : existsb (String.eqb n) l = true ↔ n ∈ l.
Proof.
  rewrite existsb_exists, list_elem_of_In. split.
  - intros (x & Hx & He). apply String.eqb_eq in He. by subst.
  - intros Hn. exists n. split; [done|]. apply String.eqb_refl.
Qed.

End MoltbookToolsProofs.

Ltac not_in_concrete_list :=
  vm_compute; let Hin := fresh "Hin" in intros Hin;
  repeat (apply elem_of_cons in Hin as [Hin|Hin]; [discriminate|]);
  by apply elem_of_nil in Hin.

Ltac in_concrete_list :=
  repeat (first [apply elem_of_cons; left; reflexivity | apply elem_of_cons; right]).

(** X17: [executeToolCall] throws 'Unknown tool' exactly for the names
    that [MOLTBOOK_TOOLS] does not advertise: every advertised tool is
    dispatched, no other name is, and the advertised names are
    distinct. *)
Theorem moltbook_dispatch_matches_tool_list {V : Type} (n : string) (args : gmap string V) :
  NoDup (MoltbookTools.tool_name <$> MoltbookTools.MOLTBOOK_TOOLS) ∧
  (MoltbookTools.executeToolCall n args = None ↔
     n ∉ MoltbookTools.tool_name <$> MoltbookTools.MOLTBOOK_TOOLS).
Proof.
  split.
  - apply (bool_decide_unpack _). vm_compute. exact I.
  - rewrite executeToolCall_none, <- existsb_eqb_elem.
    destruct (existsb _ _); split; done.
Qed.

(** X18: for every tool of [MOLTBOOK_TOOLS], arguments that contain the
    tool's required properties make [executeToolCall] call the client
    with a defined value for every parameter the client takes as a
    plain string; and the call depends only on the properties the tool
    declares (other keys of the arguments are ignored). *)
Theorem moltbook_tool_schema_consistent {V : Type} (tool : MoltbookTools.McpTool) :
  tool ∈ MoltbookTools.MOLTBOOK_TOOLS →
  (∀ args : gmap string V, (∀ k, k ∈ MoltbookTools.required tool → is_Some (args !! k)) →
     ∃ c, MoltbookTools.executeToolCall (MoltbookTools.tool_name tool) args = Some c ∧
          ∀ v, v ∈ MoltbookTools.plain_params c → is_Some v) ∧
  (∀ args args' : gmap string V,
     (∀ k, k ∈ MoltbookTools.properties tool → args !! k = args' !! k) →
     MoltbookTools.executeToolCall (MoltbookTools.tool_name tool) args =
     MoltbookTools.executeToolCall (MoltbookTools.tool_name tool) args').
Proof.
  intros Ht. unfold MoltbookTools.MOLTBOOK_TOOLS in Ht.
  repeat (apply elem_of_cons in Ht as [->|Ht]; [|]); [..|by apply elem_of_nil in Ht].
  all: unfold MoltbookTools.executeToolCall;
    cbn [MoltbookTools.tool_name MoltbookTools.required MoltbookTools.properties
         String.eqb Ascii.eqb Bool.eqb andb MoltbookTools.plain_params].
  all: split; [intros args Hreq; eexists; split; [reflexivity|];
               intros v Hv;
               repeat (apply elem_of_cons in Hv as [->|Hv]; [apply Hreq; in_concrete_list|]);
               by apply elem_of_nil in Hv
              |intros args args' Heq;
               repeat match goal with
                      | |- context [args !! ?k] => rewrite (Heq k) by in_concrete_list
                      end; reflexivity].
Qed.

(* ================================================================== *)
(** ** Witnesses of the properties above *)
(* ================================================================== *)

Lemma bw_unlock_parses_session_witness :
  (Bitwarden.quote ∉ String.list_ascii_of_string "$ export ") ∧
  String.list_ascii_of_string "k1==" ≠ [] ∧
  (Bitwarden.quote ∉ String.list_ascii_of_string "k1==") ∧
  Bitwarden.unlock (String.string_of_list_ascii
    (String.list_ascii_of_string "$ export " ++ Bitwarden.session_key ++
     String.list_ascii_of_string "k1==" ++ Bitwarden.quote ::
     String.list_ascii_of_string " and BW_SESSION=")) =
  Some (String.string_of_list_ascii (String.list_ascii_of_string "k1==")).
Proof.
  assert (H1 : Bitwarden.quote ∉ String.list_ascii_of_string "$ export ") by not_in_concrete_list.
  assert (H2 : String.list_ascii_of_string "k1==" ≠ []) by discriminate.
  assert (H3 : Bitwarden.quote ∉ String.list_ascii_of_string "k1==") by not_in_concrete_list.
  split_and!; [exact H1|exact H2|exact H3|].
  exact (bw_unlock_parses_session _ _ _ H1 H2 H3).
Defined.

Lemma bw_unlock_result_sound_witness :
  Bitwarden.unlock (String.string_of_list_ascii
    (String.list_ascii_of_string "unlocked: " ++ Bitwarden.session_key ++
     String.list_ascii_of_string "tk" ++ [Bitwarden.quote])) = Some "tk" ∧
  "tk" ≠ "" ∧ (Bitwarden.quote ∉ String.list_ascii_of_string "tk") ∧
  ∃ pre post, String.list_ascii_of_string (String.string_of_list_ascii
    (String.list_ascii_of_string "unlocked: " ++ Bitwarden.session_key ++
     String.list_ascii_of_string "tk" ++ [Bitwarden.quote])) =
    pre ++ Bitwarden.session_key ++ String.list_ascii_of_string "tk" ++ Bitwarden.quote :: post.
Proof.
  assert (H : Bitwarden.unlock (String.string_of_list_ascii
    (String.list_ascii_of_string "unlocked: " ++ Bitwarden.session_key ++
     String.list_ascii_of_string "tk" ++ [Bitwarden.quote])) = Some "tk")
    by (vm_compute; reflexivity).
  split; [exact H|exact (bw_unlock_result_sound _ _ H)].
Defined.

Lemma bw_generate_mode_args_witness :
  Bitwarden.generate_args (Some (Bitwarden.mkGenerateOptions (Some 10%Z) (Some true) None None
     None (Some true) (Some 4%Z) (Some "_"))) =
  Bitwarden.generate_args (Some (Bitwarden.mkGenerateOptions (Some 64%Z) (Some false) (Some true)
     (Some true) (Some true) (Some true) (Some 4%Z) (Some "_"))) ∧
  Bitwarden.generate_args (Some (Bitwarden.mkGenerateOptions (Some 16%Z) (Some true) None None
     None (Some false) (Some 4%Z) (Some "_"))) =
  Bitwarden.generate_args (Some (Bitwarden.mkGenerateOptions (Some 16%Z) (Some true) None None
     None None (Some 9%Z) (Some " "))).
Proof.
  split.
  - apply (proj1 (bw_generate_mode_args
      (Bitwarden.mkGenerateOptions (Some 10%Z) (Some true) None None None (Some true) (Some 4%Z) (Some "_"))
      (Bitwarden.mkGenerateOptions (Some 64%Z) (Some false) (Some true) (Some true) (Some true)
         (Some true) (Some 4%Z) (Some "_")))); reflexivity.
  - apply (proj2 (bw_generate_mode_args
      (Bitwarden.mkGenerateOptions (Some 16%Z) (Some true) None None None (Some false) (Some 4%Z) (Some "_"))
      (Bitwarden.mkGenerateOptions (Some 16%Z) (Some true) None None None None (Some 9%Z) (Some " "))));
      (reflexivity || discriminate).
Defined.

Lemma bw_tools_use_current_session_witness :
  ∃ tok, Session.getSession (Session.mkManager (Some "tok") true Session.unlocked) = Some tok ∧
    Bitwarden.call_env {[ "BW_SESSION" := "ambient" ]}
      (Bitwarden.mkBitwardenCli "bw" "org" "col" "/tmp/bw-1") (Bitwarden.CSync "tok")
      !! "BW_SESSION" = Some tok.
Proof.
  apply (proj2 (bw_tools_use_current_session {[ "BW_SESSION" := "ambient" ]}
           (Bitwarden.mkBitwardenCli "bw" "org" "col" "/tmp/bw-1")
           (Session.mkManager (Some "tok") true Session.unlocked) BitwardenTools.SyncVault)).
  reflexivity.
Defined.

Lemma polling_stopAll_clears_witness :
  Polling.timers_consistent (Polling.run Polling.empty
    [Polling.EvRegister cfg_failing; Polling.EvRegister cfg_healthy; Polling.EvStart "a"]) ∧
  (∀ p, is_Some (Polling.pollers (Polling.run Polling.empty
    [Polling.EvRegister cfg_failing; Polling.EvRegister cfg_healthy; Polling.EvStart "a"]) !! p) ↔
     p ∈ (map_to_list (Polling.pollers (Polling.run Polling.empty
    [Polling.EvRegister cfg_failing; Polling.EvRegister cfg_healthy; Polling.EvStart "a"]))).*1) ∧
  ∃ m' eff, PollingAll.stopAll (map_to_list (Polling.pollers (Polling.run Polling.empty
    [Polling.EvRegister cfg_failing; Polling.EvRegister cfg_healthy; Polling.EvStart "a"]))).*1
    (Polling.run Polling.empty
      [Polling.EvRegister cfg_failing; Polling.EvRegister cfg_healthy; Polling.EvStart "a"]) =
      Some (m', eff) ∧
    Polling.intervals m' = ∅ ∧
    (∀ p st, Polling.pollers m' !! p = Some st →
       Polling.running st = false ∧ Polling.timer st = None) ∧
    (∀ p, Polling.stats p m' = Polling.stats p (Polling.run Polling.empty
      [Polling.EvRegister cfg_failing; Polling.EvRegister cfg_healthy; Polling.EvStart "a"])) ∧
    Polling.timers_consistent m'.
Proof.
  assert (Hinv : Polling.timers_consistent (Polling.run Polling.empty
    [Polling.EvRegister cfg_failing; Polling.EvRegister cfg_healthy; Polling.EvStart "a"]))
    by (apply inv_run, inv_empty).
  assert (Hks : ∀ p, is_Some (Polling.pollers (Polling.run Polling.empty
    [Polling.EvRegister cfg_failing; Polling.EvRegister cfg_healthy; Polling.EvStart "a"]) !! p) ↔
     p ∈ (map_to_list (Polling.pollers (Polling.run Polling.empty
    [Polling.EvRegister cfg_failing; Polling.EvRegister cfg_healthy; Polling.EvStart "a"]))).*1)
    by (intros p; apply keys_spec).
  split; [exact Hinv|split; [exact Hks|]].
  exact (polling_stopAll_clears _ _ Hinv Hks).
Defined.

Lemma polling_startAll_all_running_witness :
  Polling.timers_consistent (Polling.run Polling.empty
    [Polling.EvRegister cfg_failing; Polling.EvRegister cfg_healthy; Polling.EvStart "a"]) ∧
  (∀ p, is_Some (Polling.pollers (Polling.run Polling.empty
    [Polling.EvRegister cfg_failing; Polling.EvRegister cfg_healthy; Polling.EvStart "a"]) !! p) ↔
     p ∈ (map_to_list (Polling.pollers (Polling.run Polling.empty
    [Polling.EvRegister cfg_failing; Polling.EvRegister cfg_healthy; Polling.EvStart "a"]))).*1) ∧
  ∃ m' eff, PollingAll.startAll (map_to_list (Polling.pollers (Polling.run Polling.empty
    [Polling.EvRegister cfg_failing; Polling.EvRegister cfg_healthy; Polling.EvStart "a"]))).*1
    (Polling.run Polling.empty
      [Polling.EvRegister cfg_failing; Polling.EvRegister cfg_healthy; Polling.EvStart "a"]) =
      Some (m', eff) ∧
    Polling.timers_consistent m' ∧
    (∀ p st, Polling.pollers m' !! p = Some st →
       Polling.running st = true ∧ ∃ t, Polling.timer st = Some t ∧
         Polling.intervals m' !! t = Some p) ∧
    (∀ p st t, Polling.pollers (Polling.run Polling.empty
      [Polling.EvRegister cfg_failing; Polling.EvRegister cfg_healthy; Polling.EvStart "a"]) !! p =
        Some st → Polling.timer st = Some t →
       ∃ st', Polling.pollers m' !! p = Some st' ∧ Polling.timer st' = Some t) ∧
    (∀ p, Polling.stats p m' = Polling.stats p (Polling.run Polling.empty
      [Polling.EvRegister cfg_failing; Polling.EvRegister cfg_healthy; Polling.EvStart "a"])).
Proof.
  assert (Hinv : Polling.timers_consistent (Polling.run Polling.empty
    [Polling.EvRegister cfg_failing; Polling.EvRegister cfg_healthy; Polling.EvStart "a"]))
    by (apply inv_run, inv_empty).
  assert (Hks : ∀ p, is_Some (Polling.pollers (Polling.run Polling.empty
    [Polling.EvRegister cfg_failing; Polling.EvRegister cfg_healthy; Polling.EvStart "a"]) !! p) ↔
     p ∈ (map_to_list (Polling.pollers (Polling.run Polling.empty
    [Polling.EvRegister cfg_failing; Polling.EvRegister cfg_healthy; Polling.EvStart "a"]))).*1)
    by (intros p; apply keys_spec).
  split; [exact Hinv|split; [exact Hks|]].
  exact (polling_startAll_all_running _ _ Hinv Hks).
Defined.

Lemma moltbook_tool_schema_consistent_witness :
  MoltbookTools.mkMcpTool "moltbook_create_comment" ["post_id"; "content"; "parent_id"]
    ["post_id"; "content"] ∈ MoltbookTools.MOLTBOOK_TOOLS ∧
  ∃ c, MoltbookTools.executeToolCall "moltbook_create_comment"
         ({[ "post_id" := "p1"; "content" := "hello"; "extra" := "x" ]} : gmap string string) =
       Some c ∧ ∀ v, v ∈ MoltbookTools.plain_params c → is_Some v.
Proof.
  assert (Ht : MoltbookTools.mkMcpTool "moltbook_create_comment" ["post_id"; "content"; "parent_id"]
    ["post_id"; "content"] ∈ MoltbookTools.MOLTBOOK_TOOLS)
    by (unfold MoltbookTools.MOLTBOOK_TOOLS; in_concrete_list).
  split; [exact Ht|].
  apply (proj1 (moltbook_tool_schema_consistent _ Ht)).
  intros k Hk. cbn [MoltbookTools.required] in Hk.
  apply elem_of_cons in Hk as [->|Hk]; [eexists; reflexivity|].
  apply elem_of_cons in Hk as [->|Hk]; [eexists; reflexivity|].
  by apply elem_of_nil in Hk.
Defined.
